(** * UDML translator: translation, peephole optimisation and complexity metrics

    A shallow embedding of [backend/udml/translator.py]: the unified opcode
    enumeration, the instruction and program records, the five vendor mapping
    tables, [UDMLTranslator.translate], [UDMLTranslator.optimize] and
    [UDMLTranslator.analyze_complexity], followed by the properties the
    design document states about them.

    Conventions.
    - A Python [dict] with string keys is a [gmap string _]; a Python [list]
      is a [list]; a Python [int] is a [Z]; [Optional[str]] is
      [option string].
    - A call either returns, raises a Python exception, or is stuck; the last
      outcome has no Python counterpart (the model ran out of loop fuel or
      followed a reference that is not in the store) and is shown not to
      occur.
    - [UDMLProgram] objects are mutable and passed by reference, so the
      optimiser works on a store of programs.
    - Calls to [logger] have no effect on any value and are left out. *)

From stdpp Require Import gmap strings list fin_maps.

#[local] Set Warnings "-register-all".
Local Open Scope string_scope.
Local Open Scope list_scope.
Local Open Scope nat_scope.

(** ** Python values, exceptions and outcomes *)

(** The values a [Dict[str, Any]] holds in this module. *)
Inductive PyValue : Type :=
| PyNone
| PyBool (b : bool)
| PyInt (z : Z)
| PyStr (s : string)
| PyList (l : list PyValue)
| PyDict (kv : list (string * PyValue)).

Inductive PyException : Type :=
| IndexError
| ValueError (msg : string).

Inductive outcome (A : Type) : Type :=
| Return (a : A)
| Raise (e : PyException)
| Stuck.
Arguments Return {A} a.
Arguments Raise {A} e.
Arguments Stuck {A}.

#[global] Instance outcome_ret : MRet outcome := λ A a, Return a.
#[global] Instance outcome_bind : MBind outcome := λ A B f m,
  match m with
  | Return a => f a
  | Raise e => Raise e
  | Stuck => Stuck
  end.

(** [l[i]] for a non-negative index. *)
Definition index {A} (l : list A) (i : nat) : outcome A :=
  match l !! i with
  | Some x => Return x
  | None => Raise IndexError
  end.

(** ** The data model *)

Module UDMLOpcode.
Inductive t : Set :=
| LOAD | STORE | MOVE
| AND | OR | XOR | NOT
| EQ | NE | GT | LT | GE | LE
| ADD | SUB | MUL | DIV | MOD
| TON | TOF | TP | CTU | CTD | CTUD
| CALL | RET | JMP | JZ | JNZ
| NOP | SET | RESET.

#[global] Instance eq_dec : EqDecision t.
Proof. solve_decision. Defined.

(** The enumeration member's [value]. *)
Definition value (o : t) : string :=
  match o with
  | LOAD => "LOAD" | STORE => "STORE" | MOVE => "MOVE"
  | AND => "AND" | OR => "OR" | XOR => "XOR" | NOT => "NOT"
  | EQ => "EQ" | NE => "NE" | GT => "GT" | LT => "LT" | GE => "GE" | LE => "LE"
  | ADD => "ADD" | SUB => "SUB" | MUL => "MUL" | DIV => "DIV" | MOD => "MOD"
  | TON => "TON" | TOF => "TOF" | TP => "TP"
  | CTU => "CTU" | CTD => "CTD" | CTUD => "CTUD"
  | CALL => "CALL" | RET => "RET" | JMP => "JMP" | JZ => "JZ" | JNZ => "JNZ"
  | NOP => "NOP" | SET => "SET" | RESET => "RESET"
  end.
End UDMLOpcode.

Module UDMLInstruction.
Record t : Type := mk {
  opcode : UDMLOpcode.t;
  operands : list string;
  source_vendor : string;
  source_instruction : string;
  address : Z;
  metadata : gmap string PyValue;
  comment : option string
}.
End UDMLInstruction.

Module UDMLProgram.
Record t : Type := mk {
  program_name : string;
  source_vendor : string;
  instructions : list UDMLInstruction.t;
  global_variables : gmap string PyValue;
  functions : list (gmap string PyValue);
  metadata : gmap string PyValue
}.

(** [program.instructions = new]: every other field keeps its value. *)
Definition set_instructions (p : t) (new : list UDMLInstruction.t) : t :=
  mk (program_name p) (source_vendor p) new
     (global_variables p) (functions p) (metadata p).
End UDMLProgram.

Import UDMLInstruction.

(** The store of [UDMLProgram] objects, by object identity. *)
Abbreviation loc := nat (only parsing).
Abbreviation heap := (gmap nat UDMLProgram.t) (only parsing).

(** [UDMLProgram(...)]: a new object at an identity not in use. *)
Definition new_program (p : UDMLProgram.t) (h : heap) : loc * heap :=
  let l := fresh (dom h) in (l, <[l := p]> h).

(** The instruction list of the object at [l]. *)
Definition instructions_at (h : heap) (l : loc) : option (list UDMLInstruction.t) :=
  UDMLProgram.instructions <$> h !! l.

(** ** The optimiser *)

(** The instruction appended by the fusion branch of [optimize]. *)
Definition move_inst (inst : UDMLInstruction.t) (a b : string) : UDMLInstruction.t :=
  {| opcode := UDMLOpcode.MOVE;
     operands := [a; b];
     source_vendor := source_vendor inst;
     source_instruction := "OPTIMIZED";
     address := address inst;
     metadata := {[ "optimized" := PyBool true ]};
     comment := Some "Combined LOAD+STORE" |}.

(** One iteration of the [while] loop of [optimize], entered with
    [i < len(program.instructions)]; the state is the cursor [i] and the list
    [optimized_instructions]. The fusion test is Python's short-circuit
    [and]: [instructions[i+1]] is read only when the first two conjuncts
    hold. *)
Definition optimize_body (instructions : list UDMLInstruction.t)
    (st : nat * list UDMLInstruction.t) : outcome (nat * list UDMLInstruction.t) :=
  let '(i, optimized_instructions) := st in
  inst ← index instructions i;
  if bool_decide (opcode inst = UDMLOpcode.NOP) then
    mret (i + 1, optimized_instructions)
  else
    fuse ← (if bool_decide (Z.of_nat i < Z.of_nat (length instructions) - 1)%Z
               && bool_decide (opcode inst = UDMLOpcode.LOAD)
            then next ← index instructions (i + 1);
                 mret (bool_decide (opcode next = UDMLOpcode.STORE))
            else mret false);
    if fuse : bool then
      a ← index (operands inst) 0;
      next ← index instructions (i + 1);
      b ← index (operands next) 0;
      mret (i + 2, optimized_instructions ++ [move_inst inst a b])
    else
      mret (i + 1, optimized_instructions ++ [inst]).

(** [while i < len(program.instructions): ...], with a bound on the number of
    iterations. *)
Fixpoint optimize_while (fuel : nat) (instructions : list UDMLInstruction.t)
    (st : nat * list UDMLInstruction.t) : outcome (list UDMLInstruction.t) :=
  if bool_decide (st.1 < length instructions) then
    match fuel with
    | 0 => Stuck
    | S fuel' =>
        st' ← optimize_body instructions st;
        optimize_while fuel' instructions st'
    end
  else mret st.2.

(** The loop of [optimize] from [i = 0] and [optimized_instructions = []].
    Every iteration advances the cursor, so [len(instructions)] iterations
    are enough ([optimize_loop_not_stuck] below). *)
Definition optimize_loop (instructions : list UDMLInstruction.t)
    : outcome (list UDMLInstruction.t) :=
  optimize_while (length instructions) instructions (0, []).

(** [UDMLTranslator.optimize]. The argument is a reference; the assignment
    [program.instructions = optimized_instructions] updates the object it
    points to, and the same reference is returned. An exception raised in
    the loop leaves the store as it was. The loop does not write to the
    program, so its instruction list is read once. *)
Definition optimize (program : loc) (h : heap) : outcome (loc * heap) :=
  match h !! program with
  | None => Stuck
  | Some p =>
      optimized_instructions ← optimize_loop (UDMLProgram.instructions p);
      mret (program,
            <[program := UDMLProgram.set_instructions p optimized_instructions]> h)
  end.

(** ** The vendor mapping tables *)

Definition SIEMENS_MAPPING : gmap string UDMLOpcode.t :=
  list_to_map
    [ ("A", UDMLOpcode.AND); ("AN", UDMLOpcode.AND);
      ("O", UDMLOpcode.OR); ("ON", UDMLOpcode.OR);
      ("X", UDMLOpcode.XOR);
      ("=", UDMLOpcode.STORE); ("L", UDMLOpcode.LOAD); ("T", UDMLOpcode.STORE);
      ("S", UDMLOpcode.SET); ("R", UDMLOpcode.RESET);
      ("+I", UDMLOpcode.ADD); ("-I", UDMLOpcode.SUB);
      ("*I", UDMLOpcode.MUL); ("/I", UDMLOpcode.DIV);
      ("==I", UDMLOpcode.EQ); ("<>I", UDMLOpcode.NE);
      (">I", UDMLOpcode.GT); ("<I", UDMLOpcode.LT);
      ("CALL", UDMLOpcode.CALL) ].

Definition MITSUBISHI_MAPPING : gmap string UDMLOpcode.t :=
  list_to_map
    [ ("LD", UDMLOpcode.LOAD); ("LDI", UDMLOpcode.LOAD);
      ("OUT", UDMLOpcode.STORE);
      ("AND", UDMLOpcode.AND); ("ANI", UDMLOpcode.AND);
      ("OR", UDMLOpcode.OR); ("ORI", UDMLOpcode.OR);
      ("SET", UDMLOpcode.SET); ("RST", UDMLOpcode.RESET);
      ("MOV", UDMLOpcode.MOVE);
      ("ADD", UDMLOpcode.ADD); ("SUB", UDMLOpcode.SUB);
      ("MUL", UDMLOpcode.MUL); ("DIV", UDMLOpcode.DIV) ].

Definition ROCKWELL_MAPPING : gmap string UDMLOpcode.t :=
  list_to_map
    [ ("XIC", UDMLOpcode.LOAD); ("XIO", UDMLOpcode.LOAD);
      ("OTE", UDMLOpcode.STORE); ("OTL", UDMLOpcode.SET);
      ("OTU", UDMLOpcode.RESET);
      ("TON", UDMLOpcode.TON); ("TOF", UDMLOpcode.TOF);
      ("CTU", UDMLOpcode.CTU); ("CTD", UDMLOpcode.CTD);
      ("ADD", UDMLOpcode.ADD); ("SUB", UDMLOpcode.SUB);
      ("MUL", UDMLOpcode.MUL); ("DIV", UDMLOpcode.DIV);
      ("EQU", UDMLOpcode.EQ); ("NEQ", UDMLOpcode.NE);
      ("GRT", UDMLOpcode.GT); ("LES", UDMLOpcode.LT);
      ("JSR", UDMLOpcode.CALL) ].

Definition LS_MAPPING : gmap string UDMLOpcode.t :=
  list_to_map
    [ ("LD", UDMLOpcode.LOAD); ("OUT", UDMLOpcode.STORE);
      ("AND", UDMLOpcode.AND); ("OR", UDMLOpcode.OR);
      ("SET", UDMLOpcode.SET); ("RST", UDMLOpcode.RESET);
      ("MOV", UDMLOpcode.MOVE);
      ("ADD", UDMLOpcode.ADD); ("SUB", UDMLOpcode.SUB) ].

Definition OMRON_MAPPING : gmap string UDMLOpcode.t :=
  list_to_map
    [ ("LD", UDMLOpcode.LOAD); ("OUT", UDMLOpcode.STORE);
      ("AND", UDMLOpcode.AND); ("OR", UDMLOpcode.OR);
      ("SET", UDMLOpcode.SET); ("RSET", UDMLOpcode.RESET);
      ("MOV", UDMLOpcode.MOVE);
      ("ADD", UDMLOpcode.ADD); ("SUB", UDMLOpcode.SUB) ].

(** [self.vendor_mappings], as [__init__] builds it. *)
Definition vendor_mappings : gmap string (gmap string UDMLOpcode.t) :=
  list_to_map
    [ ("siemens", SIEMENS_MAPPING);
      ("mitsubishi", MITSUBISHI_MAPPING);
      ("rockwell", ROCKWELL_MAPPING);
      ("ls", LS_MAPPING);
      ("omron", OMRON_MAPPING) ].

(** ** The translator *)

(** An element of the [instructions] argument of [translate], which is typed
    [List[Any]]: the object's [str()] and the four attributes the translator
    asks for, each of them present or absent ([hasattr], [getattr] with a
    default). *)
Record VendorInstruction : Type := {
  py_str : string;
  attr_mnemonic : option string;
  attr_operands : option (list string);
  attr_address : option Z;
  attr_comment : option (option string)
}.

(** A [parsers.siemens.PLCInstruction]: all four attributes are present.
    [instruction_type] and [raw_bytes] are not read by the translator, and
    neither is [str()] of an object that has a [mnemonic]. *)
Definition PLCInstruction (address : Z) (mnemonic : string)
    (operands : list string) (comment : option string) : VendorInstruction :=
  {| py_str := mnemonic;
     attr_mnemonic := Some mnemonic;
     attr_operands := Some operands;
     attr_address := Some address;
     attr_comment := Some comment |}.

(** A plain Python string used as an instruction: no attribute is present. *)
Definition PyStrInstruction (s : string) : VendorInstruction :=
  {| py_str := s;
     attr_mnemonic := None;
     attr_operands := None;
     attr_address := None;
     attr_comment := None |}.

(** [inst.mnemonic if hasattr(inst, 'mnemonic') else str(inst)] *)
Definition mnemonic_of (inst : VendorInstruction) : string :=
  match attr_mnemonic inst with
  | Some m => m
  | None => py_str inst
  end.

(** [UDMLTranslator._translate_instruction] *)
Definition _translate_instruction (vendor : string)
    (mapping : gmap string UDMLOpcode.t) (inst : VendorInstruction)
    : option UDMLInstruction.t :=
  let mnemonic := mnemonic_of inst in
  match mapping !! mnemonic with
  | None =>
      Some {| opcode := UDMLOpcode.NOP;
              operands := [];
              source_vendor := vendor;
              source_instruction := mnemonic;
              address := default 0%Z (attr_address inst);
              metadata := {[ "warning" := PyStr "unmapped_instruction" ]};
              comment := Some ("Unknown: " +:+ mnemonic) |}
  | Some opcode =>
      let operands := default [] (attr_operands inst) in
      let metadata : gmap string PyValue :=
        if bool_decide (mnemonic ∈ ["AN"; "ANI"; "XIO"])
        then <["negated" := PyBool true]> ∅
        else ∅ in
      Some {| opcode := opcode;
              operands := operands;
              source_vendor := vendor;
              source_instruction := mnemonic;
              address := default 0%Z (attr_address inst);
              metadata := metadata;
              comment := default None (attr_comment inst) |}
  end.

Section Translate.
(** [str.lower] is a Python built-in; the translator is modelled for any
    such function. *)
Variable lower : string → string.

(** [UDMLTranslator.translate]. The result is the value of the
    [UDMLProgram] object it constructs. [if udml_inst:] tests the result of
    [_translate_instruction] against [None]: an instance of the dataclass
    defines neither [__bool__] nor [__len__] and is always true. *)
Definition translate (vendor : string) (instructions : list VendorInstruction)
    : outcome UDMLProgram.t :=
  let vendor_lower := lower vendor in
  match vendor_mappings !! vendor_lower with
  | None => Raise (ValueError ("Unsupported vendor: " +:+ vendor))
  | Some mapping =>
      let udml_instructions :=
        fold_left
          (λ udml_instructions inst,
             match _translate_instruction vendor_lower mapping inst with
             | Some udml_inst => udml_instructions ++ [udml_inst]
             | None => udml_instructions
             end)
          instructions [] in
      Return {| UDMLProgram.program_name := vendor +:+ "_program";
                UDMLProgram.source_vendor := vendor;
                UDMLProgram.instructions := udml_instructions;
                UDMLProgram.global_variables := ∅;
                UDMLProgram.functions := [];
                UDMLProgram.metadata :=
                  {[ "translation_date" := PyStr "2024-01-01";
                     "translator_version" := PyStr "1.0.0" ]} |}
  end.
End Translate.

(** [str.lower] on the letters A to Z, every other character kept: what the
    built-in does on ASCII text. *)
Definition ascii_lower_char (c : Ascii.ascii) : Ascii.ascii :=
  let n := Ascii.nat_of_ascii c in
  if bool_decide (65 ≤ n ≤ 90) then Ascii.ascii_of_nat (n + 32) else c.

Fixpoint ascii_lower (s : string) : string :=
  match s with
  | EmptyString => EmptyString
  | String c s' => String (ascii_lower_char c) (ascii_lower s')
  end.

(** ** The complexity analyser *)

(** The dictionary [analyze_complexity] returns. *)
Record ComplexityReport : Type := {
  total_instructions : Z;
  opcode_distribution : gmap string Z;
  cyclomatic_complexity : Z;
  max_nesting_depth : Z
}.

(** [UDMLTranslator._calculate_cyclomatic_complexity]: [sum] adds a [1] for
    every instruction the generator lets through, starting from 0. *)
Definition _calculate_cyclomatic_complexity (program : UDMLProgram.t) : Z :=
  let decision_points :=
    fold_left Z.add
      (map (λ _, 1%Z)
         (filter (λ inst, opcode inst ∈ [UDMLOpcode.JZ; UDMLOpcode.JNZ; UDMLOpcode.CALL])
            (UDMLProgram.instructions program)))
      0%Z in
  (decision_points + 1)%Z.

(** The body of the [for] loop of [_calculate_nesting_depth] on the pair
    [(max_depth, current_depth)]. *)
Definition nesting_step (st : Z * Z) (inst : UDMLInstruction.t) : Z * Z :=
  let '(max_depth, current_depth) := st in
  if bool_decide (opcode inst = UDMLOpcode.CALL) then
    let current_depth := (current_depth + 1)%Z in
    (Z.max max_depth current_depth, current_depth)
  else if bool_decide (opcode inst = UDMLOpcode.RET) then
    (max_depth, Z.max 0 (current_depth - 1))
  else (max_depth, current_depth).

(** [UDMLTranslator._calculate_nesting_depth] *)
Definition _calculate_nesting_depth (program : UDMLProgram.t) : Z :=
  (fold_left nesting_step (UDMLProgram.instructions program) (0%Z, 0%Z)).1.

(** [UDMLTranslator.analyze_complexity]. The analyser only reads the
    program, so it is given the value of the object. *)
Definition analyze_complexity (program : UDMLProgram.t) : ComplexityReport :=
  let opcode_counts : gmap string Z :=
    fold_left
      (λ opcode_counts inst,
         let opcode := UDMLOpcode.value (opcode inst) in
         <[opcode := (default 0 (opcode_counts !! opcode) + 1)%Z]> opcode_counts)
      (UDMLProgram.instructions program) ∅ in
  {| total_instructions := Z.of_nat (length (UDMLProgram.instructions program));
     opcode_distribution := opcode_counts;
     cyclomatic_complexity := _calculate_cyclomatic_complexity program;
     max_nesting_depth := _calculate_nesting_depth program |}.

(** ** The optimiser loop as a recursion on the instructions still to read *)

(** What the loop of [optimize] does from the cursor on, as a function of the
    instructions at and after the cursor. *)
Fixpoint peephole (l : list UDMLInstruction.t) : outcome (list UDMLInstruction.t) :=
  match l with
  | [] => Return []
  | inst :: rest =>
      if bool_decide (opcode inst = UDMLOpcode.NOP) then peephole rest
      else
        match rest with
        | next :: rest' =>
            if bool_decide (opcode inst = UDMLOpcode.LOAD)
               && bool_decide (opcode next = UDMLOpcode.STORE)
            then
              a ← index (operands inst) 0;
              b ← index (operands next) 0;
              r ← peephole rest';
              mret (move_inst inst a b :: r)
            else r ← peephole rest; mret (inst :: r)
        | [] => Return [inst]
        end
  end.

(** The instructions from the first one that is not a [NOP]. *)
Fixpoint skip_nops (l : list UDMLInstruction.t) : list UDMLInstruction.t :=
  match l with
  | [] => []
  | inst :: rest =>
      if bool_decide (opcode inst = UDMLOpcode.NOP) then skip_nops rest else l
  end.

(** The list starts with an instruction of the given opcode. *)
Definition starts_with (o : UDMLOpcode.t) (l : list UDMLInstruction.t) : bool :=
  match l with
  | inst :: _ => bool_decide (opcode inst = o)
  | [] => false
  end.

(** No instruction is a [NOP], and no [LOAD] stands right before a [STORE]. *)
Fixpoint settled (l : list UDMLInstruction.t) : bool :=
  match l with
  | [] => true
  | inst :: rest =>
      negb (bool_decide (opcode inst = UDMLOpcode.NOP))
      && negb (bool_decide (opcode inst = UDMLOpcode.LOAD)
               && starts_with UDMLOpcode.STORE rest)
      && settled rest
  end.

(** Somewhere in the list a [LOAD] is followed by one or more [NOP]s and
    then a [STORE]. *)
Fixpoint load_nops_store (l : list UDMLInstruction.t) : bool :=
  match l with
  | [] => false
  | inst :: rest =>
      (bool_decide (opcode inst = UDMLOpcode.LOAD)
       && starts_with UDMLOpcode.NOP rest
       && starts_with UDMLOpcode.STORE (skip_nops rest))
      || load_nops_store rest
  end.

(** ** The design document's wording of the metrics and of the negated forms *)

(** The negated-logic mnemonics of each vendor as the design document lists
    them: Siemens [AN], Mitsubishi [ANI], Rockwell [XIO], and none for LS and
    Omron. *)
Definition spec_negated_mnemonics (vendor_lower : string) : list string :=
  if bool_decide (vendor_lower = "siemens") then ["AN"]
  else if bool_decide (vendor_lower = "mitsubishi") then ["ANI"]
  else if bool_decide (vendor_lower = "rockwell") then ["XIO"]
  else [].

(** The number of instructions of [l] whose opcode is [o]. *)
Fixpoint count_opcode (o : UDMLOpcode.t) (l : list UDMLInstruction.t) : Z :=
  match l with
  | [] => 0
  | inst :: rest =>
      (if bool_decide (opcode inst = o) then 1 else 0) + count_opcode o rest
  end%Z.

(** The counter of the scan as the design document words it: one more on a
    [CALL], one less but not below 0 on a [RET]. *)
Definition spec_depth_step (depth : Z) (inst : UDMLInstruction.t) : Z :=
  if bool_decide (opcode inst = UDMLOpcode.CALL) then (depth + 1)%Z
  else if bool_decide (opcode inst = UDMLOpcode.RET) then Z.max 0 (depth - 1)
  else depth.

(** The counter after a left-to-right scan of [l], from 0. *)
Definition spec_depth_counter (l : list UDMLInstruction.t) : Z :=
  fold_left spec_depth_step l 0%Z.

(** The running maximum: the largest value the counter takes over the
    prefixes of [l], the empty one included. *)
Definition spec_running_max (l : list UDMLInstruction.t) : Z :=
  foldr Z.max 0%Z
    (map (λ k, spec_depth_counter (take k l)) (seq 0 (S (length l)))).

(** ** Further vocabulary for the optimiser *)

(** Every [LOAD] standing right before a [STORE] has a first operand, and so
    has that [STORE]. *)
Fixpoint fusable_pairs_have_operands (l : list UDMLInstruction.t) : bool :=
  match l with
  | [] => true
  | inst :: rest =>
      (if bool_decide (opcode inst = UDMLOpcode.LOAD)
          && starts_with UDMLOpcode.STORE rest
       then negb (bool_decide (operands inst = []))
            && match rest with
               | next :: _ => negb (bool_decide (operands next = []))
               | [] => true
               end
       else true)
      && fusable_pairs_have_operands rest
  end.

(** The number of places where a [LOAD] stands right before a [STORE]. *)
Fixpoint count_fusable_pairs (l : list UDMLInstruction.t) : Z :=
  match l with
  | [] => 0
  | inst :: rest =>
      (if bool_decide (opcode inst = UDMLOpcode.LOAD)
          && starts_with UDMLOpcode.STORE rest
       then 1 else 0)
      + count_fusable_pairs rest
  end%Z.

(** The sum of the counts held in an opcode distribution. *)
Definition sum_counts (m : gmap string Z) : Z :=
  map_fold (λ _ v acc, (v + acc)%Z) 0%Z m.

(** An instruction of the result against the instruction of the input it
    stands for: the same instruction, or the [MOVE] the fusion branch builds
    from a [LOAD], with that [LOAD]'s address and source vendor. *)
Definition kept_or_fused (out inp : UDMLInstruction.t) : Prop :=
  out = inp
  ∨ (opcode inp = UDMLOpcode.LOAD
     ∧ ∃ a b,
         operands inp !! 0 = Some a
         ∧ out = {| opcode := UDMLOpcode.MOVE;
                    operands := [a; b];
                    source_vendor := source_vendor inp;
                    source_instruction := "OPTIMIZED";
                    address := address inp;
                    metadata := {[ "optimized" := PyBool true ]};
                    comment := Some "Combined LOAD+STORE" |}).

(** ** Export *)

(** A dictionary held as a value: its items. *)
Definition py_dict (d : gmap string PyValue) : PyValue := PyDict (map_to_list d).

(** [UDMLInstruction.to_dict] *)
Definition instruction_to_dict (self : UDMLInstruction.t) : gmap string PyValue :=
  {[ "opcode" := PyStr (UDMLOpcode.value (opcode self));
     "operands" := PyList (PyStr <$> operands self);
     "source_vendor" := PyStr (source_vendor self);
     "source_instruction" := PyStr (source_instruction self);
     "address" := PyInt (address self);
     "metadata" := py_dict (metadata self);
     "comment" := match comment self with
                  | Some c => PyStr c
                  | None => PyNone
                  end ]}.

(** [UDMLProgram.to_dict] *)
Definition program_to_dict (self : UDMLProgram.t) : gmap string PyValue :=
  {[ "program_name" := PyStr (UDMLProgram.program_name self);
     "source_vendor" := PyStr (UDMLProgram.source_vendor self);
     "instruction_count" :=
       PyInt (Z.of_nat (length (UDMLProgram.instructions self)));
     "instructions" :=
       PyList ((λ inst, py_dict (instruction_to_dict inst))
                 <$> UDMLProgram.instructions self);
     "global_variables" := py_dict (UDMLProgram.global_variables self);
     "functions" := PyList (py_dict <$> UDMLProgram.functions self);
     "metadata" := py_dict (UDMLProgram.metadata self) ]}.

(** ** Example data *)

(** A small program store for the examples: one Siemens program at
    identity 0. *)
Definition example_inst (o : UDMLOpcode.t) (operands : list string) (address : Z)
    : UDMLInstruction.t :=
  {| opcode := o; operands := operands; source_vendor := "siemens";
     source_instruction := UDMLOpcode.value o; address := address;
     metadata := ∅; comment := None |}.

Definition example_program (l : list UDMLInstruction.t) : UDMLProgram.t :=
  {| UDMLProgram.program_name := "siemens_program";
     UDMLProgram.source_vendor := "siemens";
     UDMLProgram.instructions := l;
     UDMLProgram.global_variables := ∅;
     UDMLProgram.functions := [];
     UDMLProgram.metadata := {[ "translator_version" := PyStr "1.0.0" ]} |}.

Definition example_heap (l : list UDMLInstruction.t) : heap :=
  {[ 0 := example_program l ]}.

(** * Properties *)

(** ** The loop and its recursive form *)

Lemma bind_Return {A B} (f : A → outcome B) (a : A) : (Return a ≫= f) = f a.
Proof. reflexivity. Qed.

Lemma index_Some {A} (l : list A) i x : l !! i = Some x → index l i = Return x.
Proof. unfold index. by intros ->. Qed.

Lemma optimize_while_peephole fuel instructions i acc :
  i ≤ length instructions →
  length instructions - i ≤ fuel →
  optimize_while fuel instructions (i, acc)
  = (r ← peephole (drop i instructions); mret (acc ++ r)).
Proof.
  revert i acc. induction fuel as [fuel IH] using lt_wf_ind.
  intros i acc Hi Hfuel.
  destruct (decide (i = length instructions)) as [->|Hne].
  { rewrite drop_all. destruct fuel; simpl;
      (rewrite bool_decide_eq_false_2 by lia); simpl;
      by rewrite app_nil_r. }
  assert (i < length instructions) as Hlt by lia.
  destruct (lookup_lt_is_Some_2 _ _ Hlt) as [inst Hinst].
  rewrite (drop_S _ _ _ Hinst).
  destruct fuel as [|fuel]; [lia|].
  cbn [optimize_while fst snd]. rewrite bool_decide_eq_true_2 by done.
  unfold optimize_body. rewrite (index_Some _ _ _ Hinst), bind_Return.
  cbn [peephole]. case_bool_decide as Hnop.
  { rewrite bind_Return, Nat.add_1_r. apply IH; lia. }
  destruct (decide (S i < length instructions)) as [Hlt2|Hge].
  - destruct (lookup_lt_is_Some_2 _ _ Hlt2) as [next Hnext].
    rewrite (drop_S _ _ _ Hnext).
    rewrite (bool_decide_eq_true_2 (_ < _)%Z) by lia.
    rewrite !Nat.add_1_r, (index_Some _ _ _ Hnext).
    cbn [andb]. destruct (bool_decide (opcode inst = UDMLOpcode.LOAD)); cbn [andb].
    + rewrite bind_Return.
      destruct (bool_decide (opcode next = UDMLOpcode.STORE)); rewrite bind_Return.
      * destruct (index (operands inst) 0) as [a| |]; [|done..]. rewrite !bind_Return.
        destruct (index (operands next) 0) as [b| |]; [|done..]. rewrite !bind_Return.
        replace (i + 2) with (S (S i)) by lia.
        rewrite IH by lia.
        destruct (peephole (drop (S (S i)) instructions)) as [r| |]; [|done..].
        cbn. by rewrite <- app_assoc.
      * rewrite <- (drop_S _ _ _ Hnext), ?bind_Return, ?Nat.add_1_r. rewrite IH by lia.
        destruct (peephole (drop (S i) instructions)) as [r| |]; [|done..].
        cbn. by rewrite <- app_assoc.
    + rewrite ?bind_Return, ?Nat.add_1_r, <- (drop_S _ _ _ Hnext). rewrite IH by lia.
      destruct (peephole (drop (S i) instructions)) as [r| |]; [|done..].
      cbn. by rewrite <- app_assoc.
  - rewrite (bool_decide_eq_false_2 (_ < _)%Z) by lia.
    cbn [andb]. rewrite ?bind_Return, ?Nat.add_1_r.
    rewrite IH by lia. rewrite drop_ge by lia. cbn. by rewrite app_nil_r.
Qed.

(** The loop of [optimize] computes [peephole]. *)
Lemma optimize_loop_peephole instructions :
  optimize_loop instructions = peephole instructions.
Proof.
  unfold optimize_loop. rewrite optimize_while_peephole by lia.
  rewrite drop_0. by destruct (peephole instructions).
Qed.

Lemma peephole_not_stuck l : peephole l ≠ Stuck.
Proof.
  induction l as [l IH] using (induction_ltof1 _ length). unfold ltof in IH.
  destruct l as [|inst rest]; [done|]. cbn [peephole].
  case_bool_decide; [apply IH; simpl; lia|].
  destruct rest as [|next rest']; [done|].
  destruct (_ && _).
  - destruct (index (operands inst) 0) as [a| |] eqn:Ha; [|done|];
      [|unfold index in Ha; by destruct (_ !! _)].
    destruct (index (operands next) 0) as [b| |] eqn:Hb; [|done|];
      [|unfold index in Hb; by destruct (_ !! _)].
    rewrite !bind_Return.
    specialize (IH rest'). destruct (peephole rest'); [done|done|].
    exfalso. apply IH; [simpl; lia|done].
  - specialize (IH (next :: rest')). destruct (peephole (next :: rest')); [done|done|].
    exfalso. apply IH; [simpl; lia|done].
Qed.

(** The loop of [optimize] never runs out of iterations. *)
Lemma optimize_loop_not_stuck instructions : optimize_loop instructions ≠ Stuck.
Proof. rewrite optimize_loop_peephole. apply peephole_not_stuck. Qed.

(** With at least one operand on every instruction the pass returns. *)
Lemma peephole_returns l :
  Forall (λ inst, operands inst ≠ []) l → ∃ r, peephole l = Return r.
Proof.
  induction l as [l IH] using (induction_ltof1 _ length). unfold ltof in IH.
  intros Hl. destruct l as [|inst rest]; [by exists []|].
  apply Forall_cons in Hl as [Hinst Hrest]. cbn [peephole].
  case_bool_decide; [apply IH; [simpl; lia|done]|].
  destruct rest as [|next rest']; [by eexists|].
  pose proof Hrest as Hrest0. apply Forall_cons in Hrest as [Hnext Hrest'].
  destruct (_ && _).
  - destruct (operands inst) as [|a ?]; [done|].
    destruct (operands next) as [|b ?]; [done|]. cbn.
    destruct (IH rest') as [r ->]; [simpl; lia|done|]. by eexists.
  - destruct (IH (next :: rest')) as [r ->]; [simpl; lia|done|]. by eexists.
Qed.

(** ** One pass against two *)

Lemma peephole_length l r : peephole l = Return r → length r ≤ length l.
Proof.
  revert r. induction l as [l IH] using (induction_ltof1 _ length). unfold ltof in IH.
  intros r. destruct l as [|inst rest]; [by intros [= <-]|]. cbn [peephole].
  case_bool_decide.
  { intros Hr. apply IH in Hr; simpl in *; lia. }
  destruct rest as [|next rest']; [by intros [= <-]|].
  destruct (_ && _).
  - destruct (index (operands inst) 0) as [a| |]; [|done..].
    destruct (index (operands next) 0) as [b| |]; [|done..].
    rewrite !bind_Return.
    destruct (peephole rest') as [r'| |] eqn:Hr'; [|done..].
    intros [= <-]. apply IH in Hr'; simpl in *; lia.
  - destruct (peephole (next :: rest')) as [r'| |] eqn:Hr'; [|done..].
    intros [= <-]. apply IH in Hr'; simpl in *; lia.
Qed.

(** A settled list is returned as it is. *)
Lemma peephole_settled l : settled l = true → peephole l = Return l.
Proof.
  induction l as [|inst rest IH]; [done|]. cbn [settled peephole].
  rewrite !andb_true_iff, !negb_true_iff. intros [[Hnop Hfuse] Hrest].
  rewrite Hnop. destruct rest as [|next rest']; [done|].
  cbn [starts_with] in Hfuse. rewrite Hfuse, (IH Hrest). reflexivity.
Qed.

(** Only a settled list is returned as it is. *)
Lemma peephole_fixed_settled l : peephole l = Return l → settled l = true.
Proof.
  induction l as [|inst rest IH]; [done|]. cbn [settled peephole].
  case_bool_decide as Hnop.
  { intros Hr. apply peephole_length in Hr. simpl in Hr. lia. }
  destruct rest as [|next rest']; [by rewrite andb_false_r|].
  cbn [starts_with negb andb].
  destruct (bool_decide (opcode inst = UDMLOpcode.LOAD)
            && bool_decide (opcode next = UDMLOpcode.STORE)).
  - destruct (index (operands inst) 0) as [a| |]; [|done..].
    destruct (index (operands next) 0) as [b| |]; [|done..].
    rewrite !bind_Return.
    destruct (peephole rest') as [r'| |] eqn:Hr'; [|done..].
    intros [= _ ->]. apply peephole_length in Hr'. simpl in Hr'. lia.
  - destruct (peephole (next :: rest')) as [r'| |] eqn:Hr'; [|done..].
    intros [= ->]. by rewrite IH.
Qed.

(** The result starts with a [STORE] exactly when the first instruction that
    is not a [NOP] is a [STORE]. *)
Lemma peephole_starts_with_STORE l r :
  peephole l = Return r →
  starts_with UDMLOpcode.STORE r = starts_with UDMLOpcode.STORE (skip_nops l).
Proof.
  revert r. induction l as [|inst rest IH]; intros r; [by intros [= <-]|].
  cbn [peephole skip_nops]. case_bool_decide as Hnop; [apply IH|].
  destruct rest as [|next rest']; [by intros [= <-]|].
  destruct (bool_decide (opcode inst = UDMLOpcode.LOAD)) eqn:Hload; cbn [andb].
  - apply bool_decide_eq_true in Hload.
    assert (starts_with UDMLOpcode.STORE (inst :: next :: rest') = false) as ->.
    { cbn. apply bool_decide_eq_false. congruence. }
    destruct (bool_decide (opcode next = UDMLOpcode.STORE)).
    + destruct (index (operands inst) 0) as [a| |]; [|done..].
      destruct (index (operands next) 0) as [b| |]; [|done..].
      rewrite !bind_Return.
      destruct (peephole rest') as [r'| |]; [|done..]. by intros [= <-].
    + destruct (peephole (next :: rest')) as [r'| |]; [|done..].
      intros [= <-]. cbn. apply bool_decide_eq_false. congruence.
  - destruct (peephole (next :: rest')) as [r'| |]; [|done..]. by intros [= <-].
Qed.

(** The result of one pass is settled exactly when the input has no [LOAD]
    separated from a [STORE] by [NOP]s only. *)
Lemma peephole_result_settled l r :
  peephole l = Return r → settled r = negb (load_nops_store l).
Proof.
  revert r. induction l as [l IH] using (induction_ltof1 _ length). unfold ltof in IH.
  intros r. destruct l as [|inst rest]; [by intros [= <-]|].
  cbn [peephole load_nops_store]. case_bool_decide as Hnop.
  { intros Hr. rewrite (bool_decide_eq_false_2 (opcode inst = UDMLOpcode.LOAD))
      by congruence.
    apply IH; [simpl; lia|done]. }
  destruct rest as [|next rest']; [intros [= <-]; cbn;
    rewrite (bool_decide_eq_false_2 _ Hnop); by rewrite !andb_false_r|].
  destruct (bool_decide (opcode inst = UDMLOpcode.LOAD)) eqn:Hload; cbn [andb];
    [destruct (bool_decide (opcode next = UDMLOpcode.STORE)) eqn:Hstore|].
  - destruct (index (operands inst) 0) as [a| |]; [|done..].
    destruct (index (operands next) 0) as [b| |]; [|done..].
    rewrite !bind_Return.
    destruct (peephole rest') as [r'| |] eqn:Hr'; [|done..]. intros [= <-].
    apply bool_decide_eq_true in Hstore.
    cbn. rewrite (IH rest' ltac:(simpl; lia) _ Hr').
    rewrite !(bool_decide_eq_false_2 (opcode next = _)) by congruence.
    reflexivity.
  - destruct (peephole (next :: rest')) as [r'| |] eqn:Hr'; [|done..]. intros [= <-].
    cbn [settled]. rewrite (bool_decide_eq_false_2 _ Hnop), Hload.
    rewrite (peephole_starts_with_STORE _ _ Hr'), (IH (next :: rest') ltac:(simpl; lia) _ Hr').
    cbn [negb andb starts_with skip_nops load_nops_store].
    destruct (bool_decide (opcode next = UDMLOpcode.NOP)); cbn [andb orb starts_with];
      [symmetry; apply negb_orb | by rewrite Hstore].
  - destruct (peephole (next :: rest')) as [r'| |] eqn:Hr'; [|done..]. intros [= <-].
    cbn [settled]. rewrite (bool_decide_eq_false_2 _ Hnop), Hload.
    rewrite (IH (next :: rest') ltac:(simpl; lia) _ Hr'). reflexivity.
Qed.

(** A second pass returns the result of the first unchanged exactly when the
    input has no [LOAD], [NOP]s, [STORE] run. *)
Lemma peephole_twice l r :
  peephole l = Return r →
  peephole r = Return r ↔ load_nops_store l = false.
Proof.
  intros Hr. rewrite <- negb_true_iff, <- (peephole_result_settled _ _ Hr).
  split; [apply peephole_fixed_settled | apply peephole_settled].
Qed.

(** ** [optimize] on the store *)

Lemma optimize_peephole program (h : heap) p :
  h !! program = Some p →
  optimize program h
  = (r ← peephole (UDMLProgram.instructions p);
     mret (program, <[program := UDMLProgram.set_instructions p r]> h)).
Proof. intros Hp. unfold optimize. by rewrite Hp, optimize_loop_peephole. Qed.

Lemma optimize_Return_inv program (h : heap) program' h' :
  optimize program h = Return (program', h') →
  ∃ p r, h !! program = Some p
         ∧ peephole (UDMLProgram.instructions p) = Return r
         ∧ program' = program
         ∧ h' = <[program := UDMLProgram.set_instructions p r]> h.
Proof.
  intros Hopt. destruct (h !! program) as [p|] eqn:Hp;
    [|unfold optimize in Hopt; by rewrite Hp in Hopt].
  rewrite (optimize_peephole _ _ _ Hp) in Hopt.
  destruct (peephole (UDMLProgram.instructions p)) as [r| |] eqn:Hr; [|done..].
  injection Hopt as <- <-. by exists p, r.
Qed.

(** C1, as stated, fails: one pass over [LOAD a, NOP, STORE b] leaves
    [LOAD a, STORE b], and a second pass fuses these two into one [MOVE], so
    the instruction sequence after two passes differs from the one after a
    single pass. *)
Lemma optimize_not_idempotent :
  let h := example_heap [example_inst UDMLOpcode.LOAD ["MW0"] 0;
                         example_inst UDMLOpcode.NOP [] 2;
                         example_inst UDMLOpcode.STORE ["MW2"] 4] in
  ∃ h1 h2,
    optimize 0 h = Return (0, h1)
    ∧ optimize 0 h1 = Return (0, h2)
    ∧ instructions_at h1 0
      = Some [example_inst UDMLOpcode.LOAD ["MW0"] 0;
              example_inst UDMLOpcode.STORE ["MW2"] 4]
    ∧ instructions_at h2 0
      = Some [move_inst (example_inst UDMLOpcode.LOAD ["MW0"] 0) "MW0" "MW2"]
    ∧ instructions_at h2 0 ≠ instructions_at h1 0.
Proof.
  eexists _, _. split; [reflexivity|]. split; [reflexivity|].
  split; [reflexivity|]. split; [reflexivity|]. discriminate.
Qed.

(** C1, in the form that holds: when [optimize] returns on a program, a second call on
    the result returns and leaves the instruction sequence as the first
    call left it if and only if the program given to the first call has no
    [LOAD] that is followed by one or more [NOP]s and then a [STORE]. *)
Theorem optimize_twice_iff (h : heap) program l program1 h1 :
  instructions_at h program = Some l →
  optimize program h = Return (program1, h1) →
  (∃ program2 h2,
      optimize program1 h1 = Return (program2, h2)
      ∧ instructions_at h2 program2 = instructions_at h1 program1)
  ↔ load_nops_store l = false.
Proof.
  intros Hl Hopt.
  destruct (optimize_Return_inv _ _ _ _ Hopt) as (p & r & Hp & Hr & -> & ->).
  unfold instructions_at in Hl. rewrite Hp in Hl. injection Hl as <-.
  rewrite <- (peephole_twice _ _ Hr).
  set (p1 := UDMLProgram.set_instructions p r).
  assert ((<[program := p1]> h) !! program = Some p1) as Hp1
    by apply lookup_insert_eq.
  split.
  - intros (program2 & h2 & Hopt2 & Heq).
    destruct (optimize_Return_inv _ _ _ _ Hopt2) as (p' & r' & Hp' & Hr' & -> & ->).
    rewrite Hp1 in Hp'. injection Hp' as <-.
    unfold instructions_at in Heq. rewrite Hp1, lookup_insert_eq in Heq.
    simpl in *. congruence.
  - intros Hr'. exists program, (<[program := p1]> h).
    rewrite (optimize_peephole _ _ _ Hp1). simpl. rewrite Hr'. simpl.
    split; [|done]. do 2 f_equal. rewrite insert_insert_eq. by destruct p.
Qed.

Lemma optimize_twice_iff_witness :
  let l := [example_inst UDMLOpcode.NOP [] 0;
            example_inst UDMLOpcode.LOAD ["MW0"] 2;
            example_inst UDMLOpcode.STORE ["MW2"] 4;
            example_inst UDMLOpcode.ADD ["MW4"] 6] in
  let h1 := <[0 := UDMLProgram.set_instructions (example_program l)
                     [move_inst (example_inst UDMLOpcode.LOAD ["MW0"] 2) "MW0" "MW2";
                      example_inst UDMLOpcode.ADD ["MW4"] 6]]> (example_heap l) in
  (∃ program2 h2,
      optimize 0 h1 = Return (program2, h2)
      ∧ instructions_at h2 program2 = instructions_at h1 0)
  ↔ load_nops_store l = false.
Proof.
  intros l h1. apply (optimize_twice_iff (example_heap l) 0 l 0 h1); reflexivity.
Defined.

(** C2: [optimize] raises [IndexError] on a structurally valid program in which
    a [LOAD] with an empty operand list stands right before a [STORE]. The
    translator itself builds such a program from the Siemens mnemonics
    ["L"] and ["T"] given as plain strings, because it defaults a missing
    operand list to the empty list. [analyze_complexity] returns on the same
    program. *)
Theorem optimize_raises_on_empty_operands :
  ∃ program,
    translate ascii_lower "siemens" [PyStrInstruction "L"; PyStrInstruction "T"]
    = Return program
    ∧ map (λ inst, (opcode inst, operands inst)) (UDMLProgram.instructions program)
      = [(UDMLOpcode.LOAD, []); (UDMLOpcode.STORE, [])]
    ∧ (let '(l, h) := new_program program ∅ in optimize l h = Raise IndexError)
    ∧ cyclomatic_complexity (analyze_complexity program) = 1%Z.
Proof. eexists. split; [reflexivity|]. by vm_compute. Qed.

(** C6: on a program whose instructions are a [LOAD] with first operand [a]
    and then a [STORE] with first operand [b], [optimize] leaves exactly one
    instruction: a [MOVE] with operands [[a, b]], the address and source
    vendor of the [LOAD], source instruction ["OPTIMIZED"], metadata
    [{optimized: True}] and comment ["Combined LOAD+STORE"]. *)
Theorem optimize_load_store_fused (h : heap) program p load store a b :
  h !! program = Some p →
  UDMLProgram.instructions p = [load; store] →
  opcode load = UDMLOpcode.LOAD →
  operands load !! 0 = Some a →
  opcode store = UDMLOpcode.STORE →
  operands store !! 0 = Some b →
  optimize program h
  = Return (program,
            <[program := UDMLProgram.set_instructions p
                [ {| opcode := UDMLOpcode.MOVE;
                     operands := [a; b];
                     source_vendor := source_vendor load;
                     source_instruction := "OPTIMIZED";
                     address := address load;
                     metadata := {[ "optimized" := PyBool true ]};
                     comment := Some "Combined LOAD+STORE" |} ]]> h).
Proof.
  intros Hp Hl Hload Ha Hstore Hb.
  rewrite (optimize_peephole _ _ _ Hp), Hl. cbn [peephole].
  rewrite Hload, Hstore, (index_Some _ _ _ Ha), (index_Some _ _ _ Hb).
  reflexivity.
Qed.

Lemma optimize_load_store_fused_witness :
  let load := example_inst UDMLOpcode.LOAD ["MW0"; "MW8"] 10 in
  let store := example_inst UDMLOpcode.STORE ["MW2"] 12 in
  optimize 0 (example_heap [load; store])
  = Return (0,
            <[0 := UDMLProgram.set_instructions (example_program [load; store])
                [ {| opcode := UDMLOpcode.MOVE;
                     operands := ["MW0"; "MW2"];
                     source_vendor := "siemens";
                     source_instruction := "OPTIMIZED";
                     address := 10;
                     metadata := {[ "optimized" := PyBool true ]};
                     comment := Some "Combined LOAD+STORE" |} ]]>
              (example_heap [load; store])).
Proof.
  intros load store.
  apply (optimize_load_store_fused (example_heap [load; store]) 0
           (example_program [load; store]) load store "MW0" "MW2");
    reflexivity.
Defined.

(** C7: on a program whose instructions are a [LOAD], a [NOP] and a
    [STORE], [optimize] leaves the [LOAD] and the [STORE], both unchanged:
    the [NOP] is dropped and no [MOVE] is built. *)
Theorem optimize_load_nop_store (h : heap) program p load nop store :
  h !! program = Some p →
  UDMLProgram.instructions p = [load; nop; store] →
  opcode load = UDMLOpcode.LOAD →
  opcode nop = UDMLOpcode.NOP →
  opcode store = UDMLOpcode.STORE →
  optimize program h
  = Return (program, <[program := UDMLProgram.set_instructions p [load; store]]> h).
Proof.
  intros Hp Hl Hload Hnop Hstore.
  rewrite (optimize_peephole _ _ _ Hp), Hl. cbn [peephole].
  rewrite Hload, Hnop, Hstore. reflexivity.
Qed.

Lemma optimize_load_nop_store_witness :
  let load := example_inst UDMLOpcode.LOAD ["MW0"] 0 in
  let nop := example_inst UDMLOpcode.NOP [] 2 in
  let store := example_inst UDMLOpcode.STORE ["MW2"] 4 in
  optimize 0 (example_heap [load; nop; store])
  = Return (0,
            <[0 := UDMLProgram.set_instructions (example_program [load; nop; store])
                     [load; store]]>
              (example_heap [load; nop; store])).
Proof.
  intros load nop store.
  apply (optimize_load_nop_store (example_heap [load; nop; store]) 0
           (example_program [load; nop; store]) load nop store);
    reflexivity.
Defined.

(** C10: when [optimize] returns, it returns the reference it was given;
    the object behind that reference now holds, as its [instructions], the
    list the loop built from the instructions it had, and differs from what
    it was before the call in no other field; every other object of the
    store is as it was. *)
Theorem optimize_in_place (h : heap) program program' h' :
  optimize program h = Return (program', h') →
  program' = program
  ∧ (∃ p p',
        h !! program = Some p
        ∧ h' !! program = Some p'
        ∧ optimize_loop (UDMLProgram.instructions p)
          = Return (UDMLProgram.instructions p')
        ∧ UDMLProgram.program_name p' = UDMLProgram.program_name p
        ∧ UDMLProgram.source_vendor p' = UDMLProgram.source_vendor p
        ∧ UDMLProgram.global_variables p' = UDMLProgram.global_variables p
        ∧ UDMLProgram.functions p' = UDMLProgram.functions p
        ∧ UDMLProgram.metadata p' = UDMLProgram.metadata p)
  ∧ (∀ other, other ≠ program → h' !! other = h !! other).
Proof.
  intros Hopt.
  destruct (optimize_Return_inv _ _ _ _ Hopt) as (p & r & Hp & Hr & -> & ->).
  split; [done|]. split.
  - exists p, (UDMLProgram.set_instructions p r).
    rewrite lookup_insert_eq, optimize_loop_peephole. by rewrite Hr.
  - intros other Hne. by rewrite lookup_insert_ne.
Qed.

Lemma optimize_in_place_witness :
  let p0 := example_program [example_inst UDMLOpcode.NOP [] 0;
                             example_inst UDMLOpcode.SET ["Q0.0"] 2] in
  let p1 := example_program [example_inst UDMLOpcode.NOP [] 0] in
  let h : heap := <[1 := p1]> {[ 0 := p0 ]} in
  let h' : heap :=
    <[0 := UDMLProgram.set_instructions p0 [example_inst UDMLOpcode.SET ["Q0.0"] 2]]> h in
  0 = 0
  ∧ (∃ p p',
        h !! 0 = Some p
        ∧ h' !! 0 = Some p'
        ∧ optimize_loop (UDMLProgram.instructions p)
          = Return (UDMLProgram.instructions p')
        ∧ UDMLProgram.program_name p' = UDMLProgram.program_name p
        ∧ UDMLProgram.source_vendor p' = UDMLProgram.source_vendor p
        ∧ UDMLProgram.global_variables p' = UDMLProgram.global_variables p
        ∧ UDMLProgram.functions p' = UDMLProgram.functions p
        ∧ UDMLProgram.metadata p' = UDMLProgram.metadata p)
  ∧ (∀ other, other ≠ 0 → h' !! other = h !! other).
Proof.
  intros p0 p1 h h'. apply (optimize_in_place h 0 0 h'). reflexivity.
Defined.

(** ** The translator *)

(** The keys of the registry are the five vendor names. *)
Lemma vendor_mappings_None (v : string) :
  vendor_mappings !! v = None
  ↔ v ∉ ["siemens"; "mitsubishi"; "rockwell"; "ls"; "omron"].
Proof. unfold vendor_mappings. by rewrite <- not_elem_of_list_to_map. Qed.

(** The table registered for each of them. *)
Lemma vendor_mappings_Some (v : string) mapping :
  vendor_mappings !! v = Some mapping →
  (v = "siemens" ∧ mapping = SIEMENS_MAPPING)
  ∨ (v = "mitsubishi" ∧ mapping = MITSUBISHI_MAPPING)
  ∨ (v = "rockwell" ∧ mapping = ROCKWELL_MAPPING)
  ∨ (v = "ls" ∧ mapping = LS_MAPPING)
  ∨ (v = "omron" ∧ mapping = OMRON_MAPPING).
Proof.
  intros H. apply elem_of_list_to_map_2 in H.
  repeat (apply elem_of_cons in H as [[= -> ->]|H]; [tauto|]).
  by apply elem_of_nil in H.
Qed.

(** Every input instruction yields an instruction. *)
Lemma _translate_instruction_is_Some vendor mapping inst :
  is_Some (_translate_instruction vendor mapping inst).
Proof. unfold _translate_instruction. by destruct (mapping !! _). Qed.

(** The [for] loop of [translate] appends, in order, what each input
    instruction yields. *)
Lemma translate_loop (f : VendorInstruction → option UDMLInstruction.t) l acc :
  fold_left
    (λ udml_instructions inst,
       match f inst with
       | Some udml_inst => udml_instructions ++ [udml_inst]
       | None => udml_instructions
       end) l acc
  = acc ++ omap f l.
Proof.
  revert acc. induction l as [|inst l IH]; intros acc; simpl.
  - by rewrite app_nil_r.
  - rewrite IH. destruct (f inst); [by rewrite <- app_assoc|done].
Qed.

Lemma omap_total_lookup {A B} (f : A → option B) (l : list A) i :
  (∀ x, is_Some (f x)) → omap f l !! i = l !! i ≫= f.
Proof.
  intros Hf. revert i. induction l as [|x l IH]; intros i; [done|].
  simpl. destruct (Hf x) as [y Hy]. rewrite Hy.
  destruct i as [|i]; simpl; [done|apply IH].
Qed.

Lemma omap_total_length {A B} (f : A → option B) (l : list A) :
  (∀ x, is_Some (f x)) → length (omap f l) = length l.
Proof.
  intros Hf. induction l as [|x l IH]; [done|].
  cbn. destruct (Hf x) as [y ->]. cbn. by f_equal.
Qed.

Lemma translate_Return lower vendor mapping instructions :
  vendor_mappings !! lower vendor = Some mapping →
  translate lower vendor instructions
  = Return {| UDMLProgram.program_name := vendor +:+ "_program";
              UDMLProgram.source_vendor := vendor;
              UDMLProgram.instructions :=
                omap (_translate_instruction (lower vendor) mapping) instructions;
              UDMLProgram.global_variables := ∅;
              UDMLProgram.functions := [];
              UDMLProgram.metadata :=
                {[ "translation_date" := PyStr "2024-01-01";
                   "translator_version" := PyStr "1.0.0" ]} |}.
Proof. intros Hm. unfold translate. by rewrite Hm, translate_loop. Qed.

(** C3: [translate] raises exactly when the lower-cased vendor is not one of
    the five registered names; what it raises then is the [ValueError]
    "Unsupported vendor: ..." and there is no program; in every other case it
    returns a program. *)
Theorem translate_unsupported_vendor lower vendor instructions :
  (lower vendor ∉ ["siemens"; "mitsubishi"; "rockwell"; "ls"; "omron"] →
   translate lower vendor instructions
   = Raise (ValueError ("Unsupported vendor: " +:+ vendor)))
  ∧ (lower vendor ∈ ["siemens"; "mitsubishi"; "rockwell"; "ls"; "omron"] →
     ∃ program, translate lower vendor instructions = Return program).
Proof.
  split.
  - intros Hv. apply vendor_mappings_None in Hv. unfold translate. by rewrite Hv.
  - intros Hv. destruct (vendor_mappings !! lower vendor) as [mapping|] eqn:Hm.
    + rewrite (translate_Return _ _ _ _ Hm). eauto.
    + by apply vendor_mappings_None in Hm.
Qed.

Lemma translate_unsupported_vendor_witness :
  translate ascii_lower "ABB" [PLCInstruction 0 "LD" ["X0"] None]
  = Raise (ValueError "Unsupported vendor: ABB")
  ∧ ∃ program,
      translate ascii_lower "OMRON" [PLCInstruction 0 "LD" ["X0"] None]
      = Return program.
Proof.
  split.
  - apply (translate_unsupported_vendor ascii_lower "ABB").
    apply (bool_decide_unpack _). by vm_compute.
  - apply (translate_unsupported_vendor ascii_lower "OMRON").
    apply (bool_decide_unpack _). by vm_compute.
Defined.

(** C4: under a registered vendor, [translate] returns, with one instruction
    per input instruction, and at the position of an input instruction whose
    mnemonic is not in the vendor's table stands a [NOP] with no operands,
    metadata [{warning: "unmapped_instruction"}] and the comment
    "Unknown: " followed by the mnemonic. *)
Theorem translate_unmapped_instruction lower vendor mapping instructions i inst :
  vendor_mappings !! lower vendor = Some mapping →
  instructions !! i = Some inst →
  mapping !! mnemonic_of inst = None →
  ∃ program,
    translate lower vendor instructions = Return program
    ∧ length (UDMLProgram.instructions program) = length instructions
    ∧ UDMLProgram.instructions program !! i
      = Some {| opcode := UDMLOpcode.NOP;
                operands := [];
                source_vendor := lower vendor;
                source_instruction := mnemonic_of inst;
                address := default 0%Z (attr_address inst);
                metadata := {[ "warning" := PyStr "unmapped_instruction" ]};
                comment := Some ("Unknown: " +:+ mnemonic_of inst) |}.
Proof.
  intros Hm Hi Hnone. eexists. split; [by apply translate_Return|].
  cbn [UDMLProgram.instructions]. split.
  - apply omap_total_length, _translate_instruction_is_Some.
  - rewrite omap_total_lookup by apply _translate_instruction_is_Some.
    rewrite Hi. cbn. unfold _translate_instruction. by rewrite Hnone.
Qed.

Lemma translate_unmapped_instruction_witness :
  ∃ program,
    translate ascii_lower "Mitsubishi"
      [PLCInstruction 0 "LD" ["X0"] None;
       PLCInstruction 7 "FROM" ["K0"; "D0"] (Some "read buffer memory");
       PLCInstruction 9 "OUT" ["Y0"] None]
    = Return program
    ∧ length (UDMLProgram.instructions program) = 3
    ∧ UDMLProgram.instructions program !! 1
      = Some {| opcode := UDMLOpcode.NOP;
                operands := [];
                source_vendor := "mitsubishi";
                source_instruction := "FROM";
                address := 7;
                metadata := {[ "warning" := PyStr "unmapped_instruction" ]};
                comment := Some "Unknown: FROM" |}.
Proof.
  apply (translate_unmapped_instruction ascii_lower "Mitsubishi" MITSUBISHI_MAPPING
           [PLCInstruction 0 "LD" ["X0"] None;
            PLCInstruction 7 "FROM" ["K0"; "D0"] (Some "read buffer memory");
            PLCInstruction 9 "OUT" ["Y0"] None]
           1 (PLCInstruction 7 "FROM" ["K0"; "D0"] (Some "read buffer memory")));
    reflexivity.
Defined.

(** Within a vendor's table, the translator's vendor-independent test
    [mnemonic in ["AN", "ANI", "XIO"]] agrees with that vendor's own list. *)
Lemma negated_test_per_vendor (v : string) mapping (m : string) o :
  vendor_mappings !! v = Some mapping →
  mapping !! m = Some o →
  bool_decide (m ∈ ["AN"; "ANI"; "XIO"])
  = bool_decide (m ∈ spec_negated_mnemonics v).
Proof.
  intros Hv Hm.
  destruct (vendor_mappings_Some _ _ Hv)
    as [[-> ->]|[[-> ->]|[[-> ->]|[[-> ->]|[-> ->]]]]];
    apply elem_of_list_to_map_2 in Hm;
    repeat (apply elem_of_cons in Hm as [[= -> ->]|Hm]; [by vm_compute|]);
    by apply elem_of_nil in Hm.
Qed.

Lemma _translate_instruction_mapped vendor mapping inst o :
  mapping !! mnemonic_of inst = Some o →
  _translate_instruction vendor mapping inst
  = Some {| opcode := o;
            operands := default [] (attr_operands inst);
            source_vendor := vendor;
            source_instruction := mnemonic_of inst;
            address := default 0%Z (attr_address inst);
            metadata := if bool_decide (mnemonic_of inst ∈ ["AN"; "ANI"; "XIO"])
                        then {[ "negated" := PyBool true ]} else ∅;
            comment := default None (attr_comment inst) |}.
Proof. intros Hm. unfold _translate_instruction. cbv zeta. by rewrite Hm. Qed.

(** C5: under a registered vendor, translating a single instruction whose
    mnemonic is in the vendor's table yields exactly one instruction; its
    opcode is the one the table gives, its operands are the input's, and its
    metadata is [{negated: True}] when the mnemonic is one of the vendor's
    negated-logic mnemonics and empty otherwise. *)
Theorem translate_mapped_instruction lower vendor mapping inst o :
  vendor_mappings !! lower vendor = Some mapping →
  mapping !! mnemonic_of inst = Some o →
  ∃ program udml_inst,
    translate lower vendor [inst] = Return program
    ∧ UDMLProgram.instructions program = [udml_inst]
    ∧ opcode udml_inst = o
    ∧ operands udml_inst = default [] (attr_operands inst)
    ∧ metadata udml_inst
      = if bool_decide (mnemonic_of inst ∈ spec_negated_mnemonics (lower vendor))
        then {[ "negated" := PyBool true ]}
        else ∅.
Proof.
  intros Hv Hm. eexists _, _. split; [by apply translate_Return|].
  cbn [UDMLProgram.instructions omap list_omap].
  rewrite (_translate_instruction_mapped _ _ _ _ Hm).
  split; [reflexivity|]. cbn [opcode operands metadata].
  by rewrite (negated_test_per_vendor _ _ _ _ Hv Hm).
Qed.

Lemma translate_mapped_instruction_witness :
  ∃ program udml_inst,
    translate ascii_lower "ROCKWELL" [PLCInstruction 3 "XIO" ["Local:1:I.Data.0"] None]
    = Return program
    ∧ UDMLProgram.instructions program = [udml_inst]
    ∧ opcode udml_inst = UDMLOpcode.LOAD
    ∧ operands udml_inst = ["Local:1:I.Data.0"]
    ∧ metadata udml_inst = {[ "negated" := PyBool true ]}.
Proof.
  apply (translate_mapped_instruction ascii_lower "ROCKWELL" ROCKWELL_MAPPING
           (PLCInstruction 3 "XIO" ["Local:1:I.Data.0"] None) UDMLOpcode.LOAD);
    reflexivity.
Defined.

(** ** The complexity analyser *)

Lemma decision_points_count (l : list UDMLInstruction.t) (a : Z) :
  fold_left Z.add
    (map (λ _, 1%Z)
       (filter (λ inst, opcode inst ∈ [UDMLOpcode.JZ; UDMLOpcode.JNZ; UDMLOpcode.CALL]) l))
    a
  = (a + (count_opcode UDMLOpcode.JZ l + count_opcode UDMLOpcode.JNZ l
          + count_opcode UDMLOpcode.CALL l))%Z.
Proof.
  revert a. induction l as [|inst l IH]; intros a; [simpl; lia|].
  rewrite filter_cons. cbn [count_opcode].
  destruct (decide (opcode inst ∈ [UDMLOpcode.JZ; UDMLOpcode.JNZ; UDMLOpcode.CALL]))
    as [Hin|Hnin].
  - cbn [map fold_left]. rewrite IH.
    rewrite !elem_of_cons, elem_of_nil in Hin.
    destruct Hin as [->|[->|[->|[]]]];
      repeat case_bool_decide; try done; lia.
  - rewrite IH. rewrite !not_elem_of_cons in Hnin.
    destruct Hnin as (? & ? & ? & _).
    rewrite !bool_decide_eq_false_2 by done. lia.
Qed.

(** C8: the cyclomatic complexity [analyze_complexity] reports is one more
    than the number of [JZ], [JNZ] and [CALL] instructions; with two [CALL]s,
    one [JZ] and no [JNZ] it is 4. *)
Theorem cyclomatic_complexity_count (program : UDMLProgram.t) :
  let l := UDMLProgram.instructions program in
  cyclomatic_complexity (analyze_complexity program)
  = (1 + (count_opcode UDMLOpcode.JZ l + count_opcode UDMLOpcode.JNZ l
          + count_opcode UDMLOpcode.CALL l))%Z
  ∧ (count_opcode UDMLOpcode.CALL l = 2%Z →
     count_opcode UDMLOpcode.JZ l = 1%Z →
     count_opcode UDMLOpcode.JNZ l = 0%Z →
     cyclomatic_complexity (analyze_complexity program) = 4%Z).
Proof.
  intros l. cbn [analyze_complexity cyclomatic_complexity].
  unfold _calculate_cyclomatic_complexity. fold l.
  rewrite decision_points_count. split; [lia|]. intros -> -> ->. lia.
Qed.

Lemma cyclomatic_complexity_count_witness :
  let program :=
    example_program [example_inst UDMLOpcode.CALL ["FC1"] 0;
                     example_inst UDMLOpcode.LOAD ["MW0"] 2;
                     example_inst UDMLOpcode.JZ ["M001"] 4;
                     example_inst UDMLOpcode.CALL ["FC2"] 6;
                     example_inst UDMLOpcode.RET [] 8] in
  cyclomatic_complexity (analyze_complexity program) = 4%Z.
Proof.
  intros program.
  apply (proj2 (cyclomatic_complexity_count program)); reflexivity.
Defined.

Lemma spec_depth_counter_snoc l inst :
  spec_depth_counter (l ++ [inst]) = spec_depth_step (spec_depth_counter l) inst.
Proof. unfold spec_depth_counter. by rewrite fold_left_app. Qed.

Lemma spec_depth_counter_nonneg l : (0 ≤ spec_depth_counter l)%Z.
Proof.
  induction l as [|inst l IH] using rev_ind; [done|].
  rewrite spec_depth_counter_snoc. unfold spec_depth_step.
  repeat case_bool_decide; lia.
Qed.

Lemma foldr_max_snoc (zs : list Z) (b : Z) :
  (0 ≤ b)%Z → foldr Z.max 0%Z (zs ++ [b]) = Z.max (foldr Z.max 0%Z zs) b.
Proof.
  intros Hb. induction zs as [|z zs IH]; simpl; [lia|]. rewrite IH. lia.
Qed.

Lemma spec_running_max_snoc l inst :
  spec_running_max (l ++ [inst])
  = Z.max (spec_running_max l) (spec_depth_counter (l ++ [inst])).
Proof.
  unfold spec_running_max. rewrite length_app, Nat.add_1_r.
  rewrite (seq_S (S (length l))), map_app. cbn [map Nat.add].
  rewrite foldr_max_snoc by apply spec_depth_counter_nonneg.
  rewrite (take_ge (l ++ [inst])) by (rewrite length_app; simpl; lia).
  f_equal. f_equal. apply map_ext_in. intros k Hk. apply in_seq in Hk.
  by rewrite take_app_le by lia.
Qed.

(** The loop of [_calculate_nesting_depth] keeps the running maximum and the
    counter. *)
Lemma nesting_loop_spec l :
  fold_left nesting_step l (0%Z, 0%Z) = (spec_running_max l, spec_depth_counter l)
  ∧ (0 ≤ spec_depth_counter l ≤ spec_running_max l)%Z.
Proof.
  induction l as [|inst l [IH Hle]] using rev_ind; [by vm_compute|].
  rewrite fold_left_app, IH, spec_running_max_snoc, spec_depth_counter_snoc.
  cbn [fold_left]. unfold nesting_step, spec_depth_step.
  repeat case_bool_decide; (split; [f_equal|]; lia).
Qed.

(** C9: the nesting depth [analyze_complexity] reports is the running
    maximum of the counter that goes up on [CALL] and down, not below 0, on
    [RET]; on the opcodes [CALL, CALL, RET, CALL, RET, RET] it is 2. *)
Theorem max_nesting_depth_running_max (program : UDMLProgram.t) :
  let l := UDMLProgram.instructions program in
  max_nesting_depth (analyze_complexity program) = spec_running_max l
  ∧ (map opcode l
     = [UDMLOpcode.CALL; UDMLOpcode.CALL; UDMLOpcode.RET;
        UDMLOpcode.CALL; UDMLOpcode.RET; UDMLOpcode.RET] →
     max_nesting_depth (analyze_complexity program) = 2%Z).
Proof.
  intros l. cbn [analyze_complexity max_nesting_depth].
  unfold _calculate_nesting_depth. fold l. split.
  - by rewrite (proj1 (nesting_loop_spec l)).
  - intros Hops.
    destruct l as [|i1 [|i2 [|i3 [|i4 [|i5 [|i6 [|]]]]]]]; try discriminate Hops.
    injection Hops as H1 H2 H3 H4 H5 H6.
    cbn [fold_left]. unfold nesting_step.
    rewrite H1, H2, H3, H4, H5, H6. reflexivity.
Qed.

Lemma max_nesting_depth_running_max_witness :
  let program :=
    example_program [example_inst UDMLOpcode.CALL ["FC1"] 0;
                     example_inst UDMLOpcode.CALL ["FC2"] 2;
                     example_inst UDMLOpcode.RET [] 4;
                     example_inst UDMLOpcode.CALL ["FC3"] 6;
                     example_inst UDMLOpcode.RET [] 8;
                     example_inst UDMLOpcode.RET [] 10] in
  max_nesting_depth (analyze_complexity program) = 2%Z.
Proof.
  intros program.
  apply (proj2 (max_nesting_depth_running_max program)); reflexivity.
Defined.

(** * Further properties of the optimiser *)

Lemma starts_with_STORE_cons o inst rest :
  starts_with o (inst :: rest) = bool_decide (opcode inst = o).
Proof. reflexivity. Qed.

(** The pass returns when every fusable pair has its operands and raises
    [IndexError] otherwise. *)
Lemma peephole_outcome l :
  if fusable_pairs_have_operands l
  then ∃ r, peephole l = Return r
  else peephole l = Raise IndexError.
Proof.
  induction l as [l IH] using (induction_ltof1 _ length). unfold ltof in IH.
  destruct l as [|inst rest]; [by exists []|].
  cbn [peephole fusable_pairs_have_operands].
  destruct (bool_decide_reflect (opcode inst = UDMLOpcode.NOP)) as [Hnop|Hnop].
  { rewrite (bool_decide_eq_false_2 (opcode inst = UDMLOpcode.LOAD)) by congruence.
    cbn [andb]. apply IH. simpl; lia. }
  destruct rest as [|next rest']; [rewrite andb_false_r; by eexists|].
  rewrite starts_with_STORE_cons.
  destruct (bool_decide (opcode inst = UDMLOpcode.LOAD)
            && bool_decide (opcode next = UDMLOpcode.STORE)) eqn:Hfuse.
  - apply andb_true_iff in Hfuse as [_ Hstore%bool_decide_eq_true].
    cbn [fusable_pairs_have_operands].
    rewrite (bool_decide_eq_false_2 (opcode next = UDMLOpcode.LOAD)) by congruence.
    cbn [andb]. specialize (IH rest' ltac:(simpl; lia)).
    destruct (operands inst) as [|a ?]; [done|].
    destruct (operands next) as [|b ?]; [done|]. cbn.
    destruct (fusable_pairs_have_operands rest').
    + destruct IH as [r ->]. by eexists.
    + by rewrite IH.
  - cbn [andb]. specialize (IH (next :: rest') ltac:(simpl; lia)).
    destruct (fusable_pairs_have_operands (next :: rest')).
    + destruct IH as [r ->]. by eexists.
    + by rewrite IH.
Qed.

Lemma optimize_returns (h : heap) program p :
  h !! program = Some p →
  fusable_pairs_have_operands (UDMLProgram.instructions p) = true →
  ∃ h', optimize program h = Return (program, h').
Proof.
  intros Hp Hok. rewrite (optimize_peephole _ _ _ Hp).
  pose proof (peephole_outcome (UDMLProgram.instructions p)) as Hout.
  rewrite Hok in Hout. destruct Hout as [r ->]. by eexists.
Qed.

(** X1: [optimize] returns exactly when no [LOAD] standing right before a
    [STORE] has an empty operand list and no such [STORE] has one; in every
    other case it raises [IndexError]. *)
Theorem optimize_returns_iff (h : heap) program p :
  h !! program = Some p →
  (fusable_pairs_have_operands (UDMLProgram.instructions p) = true →
   ∃ h', optimize program h = Return (program, h'))
  ∧ (fusable_pairs_have_operands (UDMLProgram.instructions p) = false →
     optimize program h = Raise IndexError).
Proof.
  intros Hp. rewrite (optimize_peephole _ _ _ Hp).
  pose proof (peephole_outcome (UDMLProgram.instructions p)) as Hout.
  split; intros Hok; rewrite Hok in Hout.
  - destruct Hout as [r ->]. by eexists.
  - by rewrite Hout.
Qed.

Lemma optimize_returns_iff_witness :
  (∃ h', optimize 0 (example_heap [example_inst UDMLOpcode.LOAD [] 0;
                                   example_inst UDMLOpcode.ADD [] 2;
                                   example_inst UDMLOpcode.STORE [] 4])
         = Return (0, h'))
  ∧ optimize 0 (example_heap [example_inst UDMLOpcode.LOAD ["MW0"] 0;
                              example_inst UDMLOpcode.STORE [] 2])
    = Raise IndexError.
Proof.
  split.
  - apply (optimize_returns_iff
             (example_heap [example_inst UDMLOpcode.LOAD [] 0;
                            example_inst UDMLOpcode.ADD [] 2;
                            example_inst UDMLOpcode.STORE [] 4]) 0
             (example_program [example_inst UDMLOpcode.LOAD [] 0;
                               example_inst UDMLOpcode.ADD [] 2;
                               example_inst UDMLOpcode.STORE [] 4]));
      reflexivity.
  - apply (optimize_returns_iff
             (example_heap [example_inst UDMLOpcode.LOAD ["MW0"] 0;
                            example_inst UDMLOpcode.STORE [] 2]) 0
             (example_program [example_inst UDMLOpcode.LOAD ["MW0"] 0;
                               example_inst UDMLOpcode.STORE [] 2]));
      reflexivity.
Defined.

Lemma peephole_no_NOP l r :
  peephole l = Return r → Forall (λ inst, opcode inst ≠ UDMLOpcode.NOP) r.
Proof.
  revert r. induction l as [l IH] using (induction_ltof1 _ length). unfold ltof in IH.
  intros r. destruct l as [|inst rest]; [by intros [= <-]|]. cbn [peephole].
  case_bool_decide as Hnop; [apply IH; simpl; lia|].
  destruct rest as [|next rest']; [intros [= <-]; by repeat constructor|].
  destruct (bool_decide (opcode inst = UDMLOpcode.LOAD)
            && bool_decide (opcode next = UDMLOpcode.STORE)).
  - destruct (index (operands inst) 0) as [a| |]; [|done..].
    destruct (index (operands next) 0) as [b| |]; [|done..].
    rewrite !bind_Return.
    destruct (peephole rest') as [r'| |] eqn:Hr'; [|done..]. intros [= <-].
    constructor; [done|]. apply (IH rest'); [simpl; lia|done].
  - destruct (peephole (next :: rest')) as [r'| |] eqn:Hr'; [|done..]. intros [= <-].
    constructor; [done|]. apply (IH (next :: rest')); [simpl; lia|done].
Qed.

Lemma peephole_length_exact l r :
  peephole l = Return r →
  Z.of_nat (length r)
  = (Z.of_nat (length l) - count_opcode UDMLOpcode.NOP l - count_fusable_pairs l)%Z.
Proof.
  revert r. induction l as [l IH] using (induction_ltof1 _ length). unfold ltof in IH.
  intros r. destruct l as [|inst rest]; [by intros [= <-]|].
  cbn [peephole count_opcode count_fusable_pairs].
  destruct (bool_decide_reflect (opcode inst = UDMLOpcode.NOP)) as [Hnop|Hnop].
  { rewrite (bool_decide_eq_false_2 (opcode inst = UDMLOpcode.LOAD)) by congruence.
    intros Hr. apply IH in Hr; [|simpl; lia]. cbn [andb length]. lia. }
  destruct rest as [|next rest']; [rewrite andb_false_r; by intros [= <-]|].
  rewrite starts_with_STORE_cons.
  destruct (bool_decide (opcode inst = UDMLOpcode.LOAD)
            && bool_decide (opcode next = UDMLOpcode.STORE)) eqn:Hfuse.
  - apply andb_true_iff in Hfuse as [_ Hstore%bool_decide_eq_true].
    destruct (index (operands inst) 0) as [a| |]; [|done..].
    destruct (index (operands next) 0) as [b| |]; [|done..].
    rewrite !bind_Return.
    destruct (peephole rest') as [r'| |] eqn:Hr'; [|done..]. intros [= <-].
    apply IH in Hr'; [|simpl; lia]. cbn [count_opcode count_fusable_pairs length].
    rewrite (bool_decide_eq_false_2 (opcode next = UDMLOpcode.NOP)) by congruence.
    rewrite (bool_decide_eq_false_2 (opcode next = UDMLOpcode.LOAD)) by congruence.
    cbn [andb]. lia.
  - destruct (peephole (next :: rest')) as [r'| |] eqn:Hr'; [|done..]. intros [= <-].
    apply IH in Hr'; [|simpl; lia]. cbn [length] in *. lia.
Qed.

(** X2: when [optimize] returns, the program it leaves holds no [NOP], and
    its length is the length it had, less the number of [NOP]s and less the
    number of places where a [LOAD] stood right before a [STORE]. *)
Theorem optimize_result_size (h : heap) program p program' h' :
  h !! program = Some p →
  optimize program h = Return (program', h') →
  ∃ l', instructions_at h' program' = Some l'
        ∧ Forall (λ inst, opcode inst ≠ UDMLOpcode.NOP) l'
        ∧ Z.of_nat (length l')
          = (Z.of_nat (length (UDMLProgram.instructions p))
             - count_opcode UDMLOpcode.NOP (UDMLProgram.instructions p)
             - count_fusable_pairs (UDMLProgram.instructions p))%Z.
Proof.
  intros Hp Hopt.
  destruct (optimize_Return_inv _ _ _ _ Hopt) as (p0 & r & Hp0 & Hr & -> & ->).
  rewrite Hp in Hp0. injection Hp0 as <-. exists r.
  unfold instructions_at. rewrite lookup_insert_eq. split; [done|].
  split; [by eapply peephole_no_NOP | by apply peephole_length_exact].
Qed.

Lemma optimize_result_size_witness :
  let l := [example_inst UDMLOpcode.NOP [] 0;
            example_inst UDMLOpcode.LOAD ["MW0"] 2;
            example_inst UDMLOpcode.STORE ["MW2"] 4;
            example_inst UDMLOpcode.NOP [] 6;
            example_inst UDMLOpcode.SET ["Q0.0"] 8] in
  let h' : heap :=
    <[0 := UDMLProgram.set_instructions (example_program l)
             [move_inst (example_inst UDMLOpcode.LOAD ["MW0"] 2) "MW0" "MW2";
              example_inst UDMLOpcode.SET ["Q0.0"] 8]]> (example_heap l) in
  ∃ l', instructions_at h' 0 = Some l'
        ∧ Forall (λ inst, opcode inst ≠ UDMLOpcode.NOP) l'
        ∧ Z.of_nat (length l') = (5 - 2 - 1)%Z.
Proof.
  intros l h'.
  apply (optimize_result_size (example_heap l) 0 (example_program l) 0 h');
    reflexivity.
Defined.

Lemma kept_or_fused_address out inp : kept_or_fused out inp → address out = address inp.
Proof. by intros [->|(_ & a & b & _ & ->)]. Qed.

Lemma sublist_map {A B} (f : A → B) (l1 l2 : list A) :
  l1 `sublist_of` l2 → map f l1 `sublist_of` map f l2.
Proof. induction 1; cbn [map]; by constructor. Qed.

Lemma peephole_kept l r :
  peephole l = Return r →
  ∃ kept, kept `sublist_of` l ∧ Forall2 kept_or_fused r kept.
Proof.
  revert r. induction l as [l IH] using (induction_ltof1 _ length). unfold ltof in IH.
  intros r. destruct l as [|inst rest]; [intros [= <-]; by exists []|].
  cbn [peephole]. case_bool_decide as Hnop.
  { intros Hr. destruct (IH rest ltac:(simpl; lia) _ Hr) as (kept & Hsub & Hall).
    exists kept. split; [by apply sublist_cons | done]. }
  destruct rest as [|next rest'];
    [intros [= <-]; exists [inst];
     split; [apply sublist_skip, sublist_nil | constructor; [by left | constructor]]|].
  destruct (bool_decide (opcode inst = UDMLOpcode.LOAD)
            && bool_decide (opcode next = UDMLOpcode.STORE)) eqn:Hfuse.
  - apply andb_true_iff in Hfuse as [Hload%bool_decide_eq_true _].
    unfold index. destruct (operands inst !! 0) as [a|] eqn:Ha; [|by cbn].
    destruct (operands next !! 0) as [b|]; [|by cbn].
    rewrite !bind_Return.
    destruct (peephole rest') as [r'| |] eqn:Hr'; [|done..]. intros [= <-].
    destruct (IH rest' ltac:(simpl; lia) _ Hr') as (kept & Hsub & Hall).
    exists (inst :: kept). split; [by apply sublist_skip, sublist_cons|].
    constructor; [|done]. right. split; [done|]. by exists a, b.
  - destruct (peephole (next :: rest')) as [r'| |] eqn:Hr'; [|done..]. intros [= <-].
    destruct (IH (next :: rest') ltac:(simpl; lia) _ Hr') as (kept & Hsub & Hall).
    exists (inst :: kept). split; [by apply sublist_skip|].
    constructor; [by left | done].
Qed.

(** X3: when [optimize] returns, the instructions it leaves stand, in the
    same order, for a subsequence of the instructions the program had: each
    is the instruction it stands for, unchanged, or the [MOVE] built from a
    [LOAD] with that [LOAD]'s address and source vendor. Hence the addresses
    it leaves are, in order, a subsequence of the addresses the program
    had. *)
Theorem optimize_addresses_subsequence (h : heap) program p program' h' :
  h !! program = Some p →
  optimize program h = Return (program', h') →
  ∃ l' kept,
    instructions_at h' program' = Some l'
    ∧ kept `sublist_of` UDMLProgram.instructions p
    ∧ Forall2 kept_or_fused l' kept
    ∧ map address l' = map address kept
    ∧ map address l' `sublist_of` map address (UDMLProgram.instructions p).
Proof.
  intros Hp Hopt.
  destruct (optimize_Return_inv _ _ _ _ Hopt) as (p0 & r & Hp0 & Hr & -> & ->).
  rewrite Hp in Hp0. injection Hp0 as <-.
  destruct (peephole_kept _ _ Hr) as (kept & Hsub & Hall). exists r, kept.
  unfold instructions_at. rewrite lookup_insert_eq.
  assert (map address r = map address kept) as Haddr.
  { clear -Hall. induction Hall as [|out inp r kept Hone _ IH]; [done|].
    cbn [map]. by rewrite IH, (kept_or_fused_address _ _ Hone). }
  split; [done|]. split; [done|]. split; [done|]. split; [done|].
  rewrite Haddr. by apply sublist_map.
Qed.

Lemma optimize_addresses_subsequence_witness :
  let l := [example_inst UDMLOpcode.LOAD ["MW0"] 10;
            example_inst UDMLOpcode.STORE ["MW2"] 12;
            example_inst UDMLOpcode.NOP [] 14;
            example_inst UDMLOpcode.RET [] 16] in
  let h' : heap :=
    <[0 := UDMLProgram.set_instructions (example_program l)
             [move_inst (example_inst UDMLOpcode.LOAD ["MW0"] 10) "MW0" "MW2";
              example_inst UDMLOpcode.RET [] 16]]> (example_heap l) in
  ∃ l' kept,
    instructions_at h' 0 = Some l'
    ∧ kept `sublist_of` l
    ∧ Forall2 kept_or_fused l' kept
    ∧ map address l' = map address kept
    ∧ map address l' `sublist_of` [10; 12; 14; 16]%Z.
Proof.
  intros l h'.
  apply (optimize_addresses_subsequence (example_heap l) 0 (example_program l) 0 h');
    reflexivity.
Defined.

(** The instructions whose opcode the pass neither drops, fuses nor builds
    go through it unchanged and in order. *)
Lemma peephole_filter (P : UDMLOpcode.t → Prop) `{!∀ o, Decision (P o)} l r :
  ¬ P UDMLOpcode.NOP → ¬ P UDMLOpcode.LOAD →
  ¬ P UDMLOpcode.STORE → ¬ P UDMLOpcode.MOVE →
  peephole l = Return r →
  filter (λ inst, P (opcode inst)) r = filter (λ inst, P (opcode inst)) l.
Proof.
  intros Hnop_P Hload_P Hstore_P Hmove_P.
  revert r. induction l as [l IH] using (induction_ltof1 _ length). unfold ltof in IH.
  intros r. destruct l as [|inst rest]; [by intros [= <-]|]. cbn [peephole].
  case_bool_decide as Hnop.
  { intros Hr. rewrite (filter_cons_False _ inst) by (cbn; by rewrite Hnop).
    apply IH; [simpl; lia|done]. }
  destruct rest as [|next rest']; [by intros [= <-]|].
  destruct (bool_decide (opcode inst = UDMLOpcode.LOAD)
            && bool_decide (opcode next = UDMLOpcode.STORE)) eqn:Hfuse.
  - apply andb_true_iff in Hfuse
      as [Hload%bool_decide_eq_true Hstore%bool_decide_eq_true].
    destruct (index (operands inst) 0) as [a| |]; [|done..].
    destruct (index (operands next) 0) as [b| |]; [|done..].
    rewrite !bind_Return.
    destruct (peephole rest') as [r'| |] eqn:Hr'; [|done..]. intros [= <-].
    rewrite (filter_cons_False _ (move_inst inst a b)) by done.
    rewrite (filter_cons_False _ inst) by (cbn; by rewrite Hload).
    rewrite (filter_cons_False _ next) by (cbn; by rewrite Hstore).
    apply IH; [simpl; lia|done].
  - destruct (peephole (next :: rest')) as [r'| |] eqn:Hr'; [|done..]. intros [= <-].
    rewrite !(filter_cons _ inst). rewrite (IH (next :: rest') ltac:(simpl; lia) _ Hr').
    reflexivity.
Qed.

(** X4: when [optimize] returns, the instructions with an opcode other than
    [NOP], [LOAD], [STORE] and [MOVE] are the ones the program had, each
    unchanged and in the same order. *)
Theorem optimize_passes_through (h : heap) program p program' h' :
  h !! program = Some p →
  optimize program h = Return (program', h') →
  ∃ l', instructions_at h' program' = Some l'
        ∧ filter (λ inst, opcode inst ∉ [UDMLOpcode.NOP; UDMLOpcode.LOAD;
                                         UDMLOpcode.STORE; UDMLOpcode.MOVE]) l'
          = filter (λ inst, opcode inst ∉ [UDMLOpcode.NOP; UDMLOpcode.LOAD;
                                           UDMLOpcode.STORE; UDMLOpcode.MOVE])
              (UDMLProgram.instructions p).
Proof.
  intros Hp Hopt.
  destruct (optimize_Return_inv _ _ _ _ Hopt) as (p0 & r & Hp0 & Hr & -> & ->).
  rewrite Hp in Hp0. injection Hp0 as <-. exists r.
  unfold instructions_at. rewrite lookup_insert_eq. split; [done|].
  pose proof (peephole_filter
                (λ o, o ∉ [UDMLOpcode.NOP; UDMLOpcode.LOAD;
                           UDMLOpcode.STORE; UDMLOpcode.MOVE])
                (UDMLProgram.instructions p) r) as Hfilter.
  apply Hfilter; [set_solver..|done].
Qed.

Lemma optimize_passes_through_witness :
  let l := [example_inst UDMLOpcode.AND ["I0.0"] 0;
            example_inst UDMLOpcode.NOP [] 2;
            example_inst UDMLOpcode.LOAD ["MW0"] 4;
            example_inst UDMLOpcode.STORE ["MW2"] 6;
            example_inst UDMLOpcode.CALL ["FC1"] 8] in
  let h' : heap :=
    <[0 := UDMLProgram.set_instructions (example_program l)
             [example_inst UDMLOpcode.AND ["I0.0"] 0;
              move_inst (example_inst UDMLOpcode.LOAD ["MW0"] 4) "MW0" "MW2";
              example_inst UDMLOpcode.CALL ["FC1"] 8]]> (example_heap l) in
  ∃ l', instructions_at h' 0 = Some l'
        ∧ filter (λ inst, opcode inst ∉ [UDMLOpcode.NOP; UDMLOpcode.LOAD;
                                         UDMLOpcode.STORE; UDMLOpcode.MOVE]) l'
          = filter (λ inst, opcode inst ∉ [UDMLOpcode.NOP; UDMLOpcode.LOAD;
                                           UDMLOpcode.STORE; UDMLOpcode.MOVE]) l.
Proof.
  intros l h'.
  apply (optimize_passes_through (example_heap l) 0 (example_program l) 0 h');
    reflexivity.
Defined.

(** ** The metrics of an optimised program *)

Lemma count_opcode_filter o l :
  count_opcode o l = Z.of_nat (length (filter (λ inst, opcode inst = o) l)).
Proof.
  induction l as [|inst l IH]; [done|]. cbn [count_opcode].
  rewrite filter_cons, IH. case_bool_decide as Ho.
  - rewrite decide_True by done. cbn [length]. lia.
  - rewrite decide_False by done. lia.
Qed.

(** The scan of [_calculate_nesting_depth] looks at [CALL] and [RET] only. *)
Lemma nesting_loop_filter l st :
  fold_left nesting_step l st
  = fold_left nesting_step
      (filter (λ inst, opcode inst ∈ [UDMLOpcode.CALL; UDMLOpcode.RET]) l) st.
Proof.
  revert st. induction l as [|inst l IH]; intros st; [done|].
  rewrite filter_cons. cbn [fold_left].
  destruct (decide (opcode inst ∈ [UDMLOpcode.CALL; UDMLOpcode.RET])) as [Hin|Hnin].
  - cbn [fold_left]. apply IH.
  - rewrite IH. f_equal. destruct st as [m c]. unfold nesting_step.
    rewrite !not_elem_of_cons in Hnin. destruct Hnin as (? & ? & _).
    by rewrite !bool_decide_eq_false_2.
Qed.

Lemma peephole_metrics l r :
  peephole l = Return r →
  (∀ o, o ∈ [UDMLOpcode.JZ; UDMLOpcode.JNZ; UDMLOpcode.CALL] →
        count_opcode o r = count_opcode o l)
  ∧ ∀ st, fold_left nesting_step r st = fold_left nesting_step l st.
Proof.
  intros Hr. split.
  - intros o Ho. rewrite !count_opcode_filter. do 2 f_equal.
    pose proof (peephole_filter (λ o', o' = o) l r) as Hfilter.
    rewrite !elem_of_cons, elem_of_nil in Ho.
    destruct Ho as [->|[->|[->|[]]]]; by apply Hfilter.
  - intros st. rewrite (nesting_loop_filter r), (nesting_loop_filter l). f_equal.
    pose proof (peephole_filter
                  (λ o, o ∈ [UDMLOpcode.CALL; UDMLOpcode.RET]) l r) as Hfilter.
    apply Hfilter; [by apply (bool_decide_unpack _)..|done].
Qed.

(** X5: when [optimize] returns, [analyze_complexity] reports for the
    program it leaves the cyclomatic complexity and the nesting depth it
    reports for the program as it was, and no more instructions. *)
Theorem optimize_keeps_metrics (h : heap) program p program' h' :
  h !! program = Some p →
  optimize program h = Return (program', h') →
  ∃ p', h' !! program' = Some p'
        ∧ cyclomatic_complexity (analyze_complexity p')
          = cyclomatic_complexity (analyze_complexity p)
        ∧ max_nesting_depth (analyze_complexity p')
          = max_nesting_depth (analyze_complexity p)
        ∧ (total_instructions (analyze_complexity p')
           ≤ total_instructions (analyze_complexity p))%Z.
Proof.
  intros Hp Hopt.
  destruct (optimize_Return_inv _ _ _ _ Hopt) as (p0 & r & Hp0 & Hr & -> & ->).
  rewrite Hp in Hp0. injection Hp0 as <-.
  exists (UDMLProgram.set_instructions p r). rewrite lookup_insert_eq.
  destruct (peephole_metrics _ _ Hr) as [Hcount Hdepth].
  split; [done|]. cbn [analyze_complexity cyclomatic_complexity max_nesting_depth
                       total_instructions].
  unfold _calculate_cyclomatic_complexity, _calculate_nesting_depth.
  cbn [UDMLProgram.set_instructions UDMLProgram.instructions].
  rewrite !decision_points_count, Hdepth.
  rewrite !Hcount by set_solver.
  split; [done|]. split; [done|]. apply peephole_length in Hr. lia.
Qed.

Lemma optimize_keeps_metrics_witness :
  let l := [example_inst UDMLOpcode.CALL ["FC1"] 0;
            example_inst UDMLOpcode.NOP [] 2;
            example_inst UDMLOpcode.LOAD ["MW0"] 4;
            example_inst UDMLOpcode.STORE ["MW2"] 6;
            example_inst UDMLOpcode.JZ ["M001"] 8;
            example_inst UDMLOpcode.RET [] 10] in
  let h' : heap :=
    <[0 := UDMLProgram.set_instructions (example_program l)
             [example_inst UDMLOpcode.CALL ["FC1"] 0;
              move_inst (example_inst UDMLOpcode.LOAD ["MW0"] 4) "MW0" "MW2";
              example_inst UDMLOpcode.JZ ["M001"] 8;
              example_inst UDMLOpcode.RET [] 10]]> (example_heap l) in
  ∃ p', h' !! 0 = Some p'
        ∧ cyclomatic_complexity (analyze_complexity p') = 3%Z
        ∧ max_nesting_depth (analyze_complexity p') = 1%Z
        ∧ (total_instructions (analyze_complexity p') ≤ 6)%Z.
Proof.
  intros l h'.
  apply (optimize_keeps_metrics (example_heap l) 0 (example_program l) 0 h');
    reflexivity.
Defined.

(** ** A third pass *)

Lemma load_nops_store_no_NOP l :
  Forall (λ inst, opcode inst ≠ UDMLOpcode.NOP) l → load_nops_store l = false.
Proof.
  induction 1 as [|inst rest Hinst Hrest IH]; [done|]. cbn [load_nops_store].
  rewrite IH, orb_false_r.
  destruct Hrest as [|next rest' Hnext _]; cbn [starts_with].
  - by rewrite andb_false_r.
  - rewrite (bool_decide_eq_false_2 _ Hnext). by rewrite andb_false_r.
Qed.

Lemma peephole_third_pass l r r2 :
  peephole l = Return r → peephole r = Return r2 → peephole r2 = Return r2.
Proof.
  intros Hr Hr2. apply peephole_settled.
  rewrite (peephole_result_settled _ _ Hr2).
  rewrite load_nops_store_no_NOP; [done|]. by eapply peephole_no_NOP.
Qed.

(** X6: two calls of [optimize] reach a fixed point. When a first and a
    second call return, a third call returns and leaves the store as the
    second call left it. *)
Theorem optimize_third_pass (h : heap) program program1 h1 program2 h2 :
  optimize program h = Return (program1, h1) →
  optimize program1 h1 = Return (program2, h2) →
  optimize program2 h2 = Return (program2, h2).
Proof.
  intros Hopt1 Hopt2.
  destruct (optimize_Return_inv _ _ _ _ Hopt1) as (p & r & Hp & Hr & -> & ->).
  destruct (optimize_Return_inv _ _ _ _ Hopt2) as (p1 & r2 & Hp1 & Hr2 & -> & ->).
  rewrite lookup_insert_eq in Hp1. injection Hp1 as <-.
  cbn [UDMLProgram.set_instructions UDMLProgram.instructions] in Hr2.
  set (p2 := UDMLProgram.set_instructions (UDMLProgram.set_instructions p r) r2).
  rewrite (optimize_peephole _ _ p2) by apply lookup_insert_eq.
  cbn [p2 UDMLProgram.set_instructions UDMLProgram.instructions].
  rewrite (peephole_third_pass _ _ _ Hr Hr2). cbn.
  by rewrite insert_insert_eq.
Qed.

Lemma optimize_third_pass_witness :
  let l := [example_inst UDMLOpcode.LOAD ["MW0"] 0;
            example_inst UDMLOpcode.NOP [] 2;
            example_inst UDMLOpcode.STORE ["MW2"] 4] in
  let h1 : heap :=
    <[0 := UDMLProgram.set_instructions (example_program l)
             [example_inst UDMLOpcode.LOAD ["MW0"] 0;
              example_inst UDMLOpcode.STORE ["MW2"] 4]]> (example_heap l) in
  let h2 : heap :=
    <[0 := UDMLProgram.set_instructions (example_program l)
             [move_inst (example_inst UDMLOpcode.LOAD ["MW0"] 0) "MW0" "MW2"]]>
      (example_heap l) in
  optimize 0 h2 = Return (0, h2).
Proof.
  intros l h1 h2.
  apply (optimize_third_pass (example_heap l) 0 0 h1 0 h2); reflexivity.
Defined.

(** * Further properties of the analyser *)

Lemma UDMLOpcode_value_inj o1 o2 :
  UDMLOpcode.value o1 = UDMLOpcode.value o2 → o1 = o2.
Proof. destruct o1, o2; (reflexivity || discriminate). Qed.

Lemma count_opcode_nonneg o l : (0 ≤ count_opcode o l)%Z.
Proof.
  induction l as [|inst l IH]; [done|]. cbn [count_opcode].
  case_bool_decide; lia.
Qed.

(** The loop of [analyze_complexity] that builds [opcode_counts], from any
    dictionary. *)
Lemma opcode_counts_lookup l (m0 : gmap string Z) k :
  fold_left
    (λ (opcode_counts : gmap string Z) inst,
       let opcode := UDMLOpcode.value (opcode inst) in
       <[opcode := (default 0 (opcode_counts !! opcode) + 1)%Z]> opcode_counts)
    l m0 !! k
  = let n := Z.of_nat (length (filter (λ inst, UDMLOpcode.value (opcode inst) = k) l)) in
    match m0 !! k with
    | Some v => Some (v + n)%Z
    | None => if decide (n = 0%Z) then None else Some n
    end.
Proof.
  revert m0. induction l as [|inst l IH]; intros m0.
  - cbn. destruct (m0 !! k); [f_equal; lia|done].
  - cbn [fold_left]. rewrite IH, filter_cons. cbv zeta.
    destruct (decide (UDMLOpcode.value (opcode inst) = k)) as [<-|Hne].
    + rewrite lookup_insert_eq. cbn [length].
      destruct (m0 !! UDMLOpcode.value (opcode inst)) as [v|]; cbn [default]; unfold id.
      * f_equal. lia.
      * rewrite decide_False by lia. f_equal. lia.
    + by rewrite lookup_insert_ne.
Qed.

(** X7: [opcode_distribution] maps the name of an opcode to the number of
    instructions with that opcode, has no entry for an opcode that does not
    occur, and has no key that is not the name of an opcode. *)
Theorem opcode_distribution_counts (program : UDMLProgram.t) :
  let l := UDMLProgram.instructions program in
  (∀ o, opcode_distribution (analyze_complexity program) !! UDMLOpcode.value o
        = if decide (count_opcode o l = 0%Z) then None
          else Some (count_opcode o l))
  ∧ (∀ k, (∀ o, k ≠ UDMLOpcode.value o) →
          opcode_distribution (analyze_complexity program) !! k = None).
Proof.
  intros l. cbn [analyze_complexity opcode_distribution]. fold l. split.
  - intros o. rewrite opcode_counts_lookup, lookup_empty. cbv zeta.
    rewrite count_opcode_filter.
    replace (filter (λ inst, UDMLOpcode.value (opcode inst) = UDMLOpcode.value o) l)
      with (filter (λ inst, opcode inst = o) l); [done|].
    apply list_filter_iff. intros inst. split; [by intros ->|].
    apply UDMLOpcode_value_inj.
  - intros k Hk. rewrite opcode_counts_lookup, lookup_empty. cbv zeta.
    rewrite decide_True; [done|].
    replace (filter (λ inst, UDMLOpcode.value (opcode inst) = k) l) with (@nil t);
      [done|].
    symmetry. clear -Hk. induction l as [|inst l IH]; [done|].
    rewrite filter_cons_False; [done|]. intros Heq. by eapply Hk.
Qed.

Lemma opcode_distribution_counts_witness :
  let program :=
    example_program [example_inst UDMLOpcode.AND ["I0.0"] 0;
                     example_inst UDMLOpcode.AND ["I0.1"] 2;
                     example_inst UDMLOpcode.STORE ["Q0.0"] 4] in
  opcode_distribution (analyze_complexity program) !! "AND" = Some 2%Z
  ∧ opcode_distribution (analyze_complexity program) !! "OR" = None
  ∧ opcode_distribution (analyze_complexity program) !! "and" = None.
Proof.
  intros program.
  destruct (opcode_distribution_counts program) as [Hname Hother].
  split; [exact (Hname UDMLOpcode.AND)|].
  split; [exact (Hname UDMLOpcode.OR)|].
  apply Hother. intros o. by destruct o.
Defined.

Lemma sum_counts_insert (m : gmap string Z) k v :
  sum_counts (<[k := v]> m) = (sum_counts m - default 0 (m !! k) + v)%Z.
Proof.
  unfold sum_counts.
  assert (∀ (m' : gmap string Z) v', m' !! k = None →
            map_fold (λ _ v acc, (v + acc)%Z) 0%Z (<[k := v']> m')
            = (v' + map_fold (λ _ v acc, (v + acc)%Z) 0%Z m')%Z) as Hfresh.
  { intros m' v' Hm'. apply (map_fold_insert_L (λ _ v acc, (v + acc)%Z));
      [intros; lia | done]. }
  destruct (m !! k) as [v0|] eqn:Hk; cbn [default]; unfold id.
  - rewrite <- (insert_delete_id m k v0) at 2 by done.
    rewrite <- (insert_delete_eq m k v).
    rewrite !Hfresh by apply lookup_delete_eq. lia.
  - rewrite Hfresh by done. lia.
Qed.

Lemma opcode_counts_sum l (m0 : gmap string Z) :
  sum_counts
    (fold_left
       (λ (opcode_counts : gmap string Z) inst,
          let opcode := UDMLOpcode.value (opcode inst) in
          <[opcode := (default 0 (opcode_counts !! opcode) + 1)%Z]> opcode_counts)
       l m0)
  = (sum_counts m0 + Z.of_nat (length l))%Z.
Proof.
  revert m0. induction l as [|inst l IH]; intros m0; cbn [fold_left length].
  - lia.
  - rewrite IH. cbv zeta. rewrite sum_counts_insert. lia.
Qed.

(** X8: the counts of [opcode_distribution] add up to
    [total_instructions]. *)
Theorem opcode_distribution_total (program : UDMLProgram.t) :
  sum_counts (opcode_distribution (analyze_complexity program))
  = total_instructions (analyze_complexity program).
Proof.
  cbn [analyze_complexity opcode_distribution total_instructions].
  rewrite opcode_counts_sum. unfold sum_counts. by rewrite map_fold_empty.
Qed.

Lemma nesting_loop_bounds l m c :
  (0 ≤ c ≤ m)%Z →
  let st := fold_left nesting_step l (m, c) in
  (0 ≤ st.2 ≤ st.1)%Z
  ∧ (st.1 ≤ Z.max m (c + count_opcode UDMLOpcode.CALL l))%Z.
Proof.
  revert m c. induction l as [|inst l IH]; intros m c Hc; cbv zeta;
    cbn [fold_left count_opcode].
  - cbn. lia.
  - pose proof (count_opcode_nonneg UDMLOpcode.CALL l).
    destruct (nesting_step (m, c) inst) as [m1 c1] eqn:Hstep.
    unfold nesting_step in Hstep.
    destruct (bool_decide (opcode inst = UDMLOpcode.CALL));
      [|destruct (bool_decide (opcode inst = UDMLOpcode.RET))];
      injection Hstep as <- <-.
    + specialize (IH (Z.max m (c + 1)) (c + 1)%Z ltac:(lia)). cbv zeta in IH. lia.
    + specialize (IH m (Z.max 0 (c - 1)) ltac:(lia)). cbv zeta in IH. lia.
    + specialize (IH m c Hc). cbv zeta in IH. lia.
Qed.

(** X9: the nesting depth [analyze_complexity] reports is at least 0 and at
    most the number of [CALL]s, hence below the cyclomatic complexity, which
    is at least 1 and at most one more than the number of instructions. *)
Theorem complexity_bounds (program : UDMLProgram.t) :
  let report := analyze_complexity program in
  (0 ≤ max_nesting_depth report
   ≤ count_opcode UDMLOpcode.CALL (UDMLProgram.instructions program))%Z
  ∧ (max_nesting_depth report < cyclomatic_complexity report)%Z
  ∧ (1 ≤ cyclomatic_complexity report ≤ total_instructions report + 1)%Z.
Proof.
  cbn [analyze_complexity max_nesting_depth cyclomatic_complexity total_instructions].
  unfold _calculate_cyclomatic_complexity, _calculate_nesting_depth.
  set (l := UDMLProgram.instructions program).
  rewrite decision_points_count.
  pose proof (nesting_loop_bounds l 0 0 ltac:(lia)) as Hb. cbv zeta in Hb.
  pose proof (count_opcode_nonneg UDMLOpcode.JZ l).
  pose proof (count_opcode_nonneg UDMLOpcode.JNZ l).
  pose proof (count_opcode_nonneg UDMLOpcode.CALL l).
  assert (count_opcode UDMLOpcode.JZ l + count_opcode UDMLOpcode.JNZ l
          + count_opcode UDMLOpcode.CALL l ≤ Z.of_nat (length l))%Z; [|lia].
  clear. induction l as [|inst l IH]; [done|]. cbn [count_opcode length].
  repeat case_bool_decide; try congruence; lia.
Qed.

Lemma nesting_loop_no_CALL l :
  Forall (λ inst, opcode inst ≠ UDMLOpcode.CALL) l →
  fold_left nesting_step l (0%Z, 0%Z) = (0%Z, 0%Z).
Proof.
  induction 1 as [|inst l Hinst _ IH]; [done|]. cbn [fold_left].
  unfold nesting_step at 2. rewrite (bool_decide_eq_false_2 _ Hinst).
  by destruct (bool_decide (opcode inst = UDMLOpcode.RET)).
Qed.

(** X10: instructions before the first [CALL] do not count: a [RET] met at
    depth 0 leaves the depth at 0, so a program reports the nesting depth
    of what follows a prefix without [CALL]s. *)
Theorem max_nesting_depth_skips_prefix (program rest : UDMLProgram.t) prefix :
  UDMLProgram.instructions program = prefix ++ UDMLProgram.instructions rest →
  Forall (λ inst, opcode inst ≠ UDMLOpcode.CALL) prefix →
  max_nesting_depth (analyze_complexity program)
  = max_nesting_depth (analyze_complexity rest).
Proof.
  intros Hl Hprefix. cbn [analyze_complexity max_nesting_depth].
  unfold _calculate_nesting_depth.
  by rewrite Hl, fold_left_app, nesting_loop_no_CALL.
Qed.

Lemma max_nesting_depth_skips_prefix_witness :
  max_nesting_depth
    (analyze_complexity
       (example_program [example_inst UDMLOpcode.RET [] 0;
                         example_inst UDMLOpcode.RET [] 2;
                         example_inst UDMLOpcode.CALL ["FC1"] 4]))
  = max_nesting_depth
      (analyze_complexity (example_program [example_inst UDMLOpcode.CALL ["FC1"] 4])).
Proof.
  apply (max_nesting_depth_skips_prefix _ _
           [example_inst UDMLOpcode.RET [] 0; example_inst UDMLOpcode.RET [] 2]).
  - reflexivity.
  - repeat constructor; discriminate.
Defined.

(** * Further properties of the translator *)

(** The opcodes the five tables map to. *)
Lemma vendor_mappings_opcodes (v : string) mapping (m : string) o :
  vendor_mappings !! v = Some mapping →
  mapping !! m = Some o →
  o ∈ [UDMLOpcode.LOAD; UDMLOpcode.STORE; UDMLOpcode.MOVE;
       UDMLOpcode.AND; UDMLOpcode.OR; UDMLOpcode.XOR;
       UDMLOpcode.EQ; UDMLOpcode.NE; UDMLOpcode.GT; UDMLOpcode.LT;
       UDMLOpcode.ADD; UDMLOpcode.SUB; UDMLOpcode.MUL; UDMLOpcode.DIV;
       UDMLOpcode.TON; UDMLOpcode.TOF; UDMLOpcode.CTU; UDMLOpcode.CTD;
       UDMLOpcode.CALL; UDMLOpcode.SET; UDMLOpcode.RESET].
Proof.
  intros Hv Hm.
  destruct (vendor_mappings_Some _ _ Hv)
    as [[-> ->]|[[-> ->]|[[-> ->]|[[-> ->]|[-> ->]]]]];
    apply elem_of_list_to_map_2 in Hm;
    repeat (apply elem_of_cons in Hm as [[= -> ->]|Hm];
            [by apply (bool_decide_unpack _)|]);
    by apply elem_of_nil in Hm.
Qed.

Lemma _translate_instruction_unmapped vendor mapping inst :
  mapping !! mnemonic_of inst = None →
  _translate_instruction vendor mapping inst
  = Some {| opcode := UDMLOpcode.NOP;
            operands := [];
            source_vendor := vendor;
            source_instruction := mnemonic_of inst;
            address := default 0%Z (attr_address inst);
            metadata := {[ "warning" := PyStr "unmapped_instruction" ]};
            comment := Some ("Unknown: " +:+ mnemonic_of inst) |}.
Proof. intros Hm. unfold _translate_instruction. cbv zeta. by rewrite Hm. Qed.

(** What [_translate_instruction] keeps of its input in both branches. *)
Lemma _translate_instruction_provenance vendor mapping inst udml_inst :
  _translate_instruction vendor mapping inst = Some udml_inst →
  source_instruction udml_inst = mnemonic_of inst
  ∧ source_vendor udml_inst = vendor
  ∧ address udml_inst = default 0%Z (attr_address inst).
Proof.
  destruct (mapping !! mnemonic_of inst) as [o|] eqn:Hm.
  - rewrite (_translate_instruction_mapped _ _ _ _ Hm). by intros [= <-].
  - rewrite (_translate_instruction_unmapped _ _ _ Hm). by intros [= <-].
Qed.

(** X11: under a registered vendor, [translate] returns a program whose
    instructions answer the input instructions one for one and in order,
    each with the input's mnemonic as source instruction, the lower-cased
    vendor as source vendor and the input's address (0 when it has none);
    the program carries the vendor as it was given, the name
    [<vendor>_program], no global variable and no function. *)
Theorem translate_one_for_one lower vendor mapping instructions :
  vendor_mappings !! lower vendor = Some mapping →
  ∃ program,
    translate lower vendor instructions = Return program
    ∧ Forall2
        (λ inst udml_inst,
           source_instruction udml_inst = mnemonic_of inst
           ∧ source_vendor udml_inst = lower vendor
           ∧ address udml_inst = default 0%Z (attr_address inst))
        instructions (UDMLProgram.instructions program)
    ∧ UDMLProgram.program_name program = vendor +:+ "_program"
    ∧ UDMLProgram.source_vendor program = vendor
    ∧ UDMLProgram.global_variables program = ∅
    ∧ UDMLProgram.functions program = [].
Proof.
  intros Hv. eexists. split; [by apply translate_Return|].
  split; [|done]. cbn [UDMLProgram.instructions].
  induction instructions as [|inst instructions IH]; [constructor|].
  cbn [omap list_omap].
  destruct (_translate_instruction (lower vendor) mapping inst) as [udml_inst|] eqn:Hinst;
    [|by destruct (_translate_instruction_is_Some (lower vendor) mapping inst)
         as [? [=]%(eq_trans (eq_sym Hinst))]].
  constructor; [by eapply _translate_instruction_provenance | exact IH].
Qed.

Lemma translate_one_for_one_witness :
  ∃ program,
    translate ascii_lower "LS"
      [PLCInstruction 4 "LD" ["P0000"] None; PyStrInstruction "END"]
    = Return program
    ∧ Forall2
        (λ inst udml_inst,
           source_instruction udml_inst = mnemonic_of inst
           ∧ source_vendor udml_inst = "ls"
           ∧ address udml_inst = default 0%Z (attr_address inst))
        [PLCInstruction 4 "LD" ["P0000"] None; PyStrInstruction "END"]
        (UDMLProgram.instructions program)
    ∧ UDMLProgram.program_name program = "LS_program"
    ∧ UDMLProgram.source_vendor program = "LS"
    ∧ UDMLProgram.global_variables program = ∅
    ∧ UDMLProgram.functions program = [].
Proof.
  apply (translate_one_for_one ascii_lower "LS" LS_MAPPING
           [PLCInstruction 4 "LD" ["P0000"] None; PyStrInstruction "END"]).
  reflexivity.
Defined.

(** X12: translating two lists one after the other gives the instructions
    of translating the first followed by the instructions of translating the
    second. *)
Theorem translate_app lower vendor instructions1 instructions2 program1 program2 :
  translate lower vendor instructions1 = Return program1 →
  translate lower vendor instructions2 = Return program2 →
  ∃ program,
    translate lower vendor (instructions1 ++ instructions2) = Return program
    ∧ UDMLProgram.instructions program
      = UDMLProgram.instructions program1 ++ UDMLProgram.instructions program2.
Proof.
  intros H1 H2. destruct (vendor_mappings !! lower vendor) as [mapping|] eqn:Hv;
    [|unfold translate in H1; by rewrite Hv in H1].
  rewrite (translate_Return _ _ _ _ Hv) in H1. rewrite (translate_Return _ _ _ _ Hv) in H2.
  injection H1 as <-. injection H2 as <-.
  eexists. split; [by apply translate_Return|].
  cbn [UDMLProgram.instructions]. apply omap_app.
Qed.

Lemma translate_app_witness :
  ∃ program,
    translate ascii_lower "omron"
      ([PLCInstruction 0 "LD" ["0.00"] None] ++ [PLCInstruction 1 "OUT" ["100.00"] None])
    = Return program
    ∧ map opcode (UDMLProgram.instructions program)
      = [UDMLOpcode.LOAD] ++ [UDMLOpcode.STORE].
Proof.
  destruct (translate_app ascii_lower "omron"
              [PLCInstruction 0 "LD" ["0.00"] None]
              [PLCInstruction 1 "OUT" ["100.00"] None] _ _ eq_refl eq_refl)
    as (program & Hprogram & Hinstructions).
  exists program. split; [exact Hprogram|]. by rewrite Hinstructions.
Defined.

(** X13: under a registered vendor, the instruction [translate] puts at the
    place of an input instruction is a [NOP] exactly when the input's
    mnemonic is not in the vendor's table, and exactly then its metadata
    holds the warning: no table maps a mnemonic to [NOP]. *)
Theorem translate_NOP_iff_unmapped lower vendor mapping instructions program i inst :
  vendor_mappings !! lower vendor = Some mapping →
  translate lower vendor instructions = Return program →
  instructions !! i = Some inst →
  ∃ udml_inst,
    UDMLProgram.instructions program !! i = Some udml_inst
    ∧ (opcode udml_inst = UDMLOpcode.NOP ↔ mapping !! mnemonic_of inst = None)
    ∧ (metadata udml_inst !! "warning" = Some (PyStr "unmapped_instruction")
       ↔ mapping !! mnemonic_of inst = None).
Proof.
  intros Hv Hprogram Hi. rewrite (translate_Return _ _ _ _ Hv) in Hprogram.
  injection Hprogram as <-. cbn [UDMLProgram.instructions].
  rewrite omap_total_lookup by apply _translate_instruction_is_Some.
  rewrite Hi. cbn [mbind option_bind].
  destruct (mapping !! mnemonic_of inst) as [o|] eqn:Hm.
  - rewrite (_translate_instruction_mapped _ _ _ _ Hm). eexists. split; [done|].
    cbn [opcode metadata]. split.
    + split; [|done]. intros ->.
      pose proof (vendor_mappings_opcodes _ _ _ _ Hv Hm) as Ho.
      by apply (bool_decide_pack _) in Ho.
    + split; [|done]. by case_bool_decide.
  - rewrite (_translate_instruction_unmapped _ _ _ Hm). eexists. split; [done|].
    cbn [opcode metadata]. split; [done|]. split; [done|]. intros _.
    apply lookup_singleton_eq.
Qed.

Lemma translate_NOP_iff_unmapped_witness :
  let program :=
    {| UDMLProgram.program_name := "mitsubishi_program";
       UDMLProgram.source_vendor := "mitsubishi";
       UDMLProgram.instructions :=
         [ {| opcode := UDMLOpcode.LOAD; operands := ["X0"];
              source_vendor := "mitsubishi"; source_instruction := "LD";
              address := 0; metadata := ∅; comment := None |};
           {| opcode := UDMLOpcode.NOP; operands := [];
              source_vendor := "mitsubishi"; source_instruction := "ld";
              address := 1;
              metadata := {[ "warning" := PyStr "unmapped_instruction" ]};
              comment := Some "Unknown: ld" |} ];
       UDMLProgram.global_variables := ∅;
       UDMLProgram.functions := [];
       UDMLProgram.metadata :=
         {[ "translation_date" := PyStr "2024-01-01";
            "translator_version" := PyStr "1.0.0" ]} |} in
  ∃ udml_inst,
    UDMLProgram.instructions program !! 1 = Some udml_inst
    ∧ (opcode udml_inst = UDMLOpcode.NOP ↔ MITSUBISHI_MAPPING !! "ld" = None)
    ∧ (metadata udml_inst !! "warning" = Some (PyStr "unmapped_instruction")
       ↔ MITSUBISHI_MAPPING !! "ld" = None).
Proof.
  intros program.
  apply (translate_NOP_iff_unmapped ascii_lower "mitsubishi" MITSUBISHI_MAPPING
           [PLCInstruction 0 "LD" ["X0"] None; PLCInstruction 1 "ld" ["X1"] None]
           program 1 (PLCInstruction 1 "ld" ["X1"] None));
    reflexivity.
Defined.



(** The opcode of a translated instruction is [NOP] or comes from the
    table. *)
Lemma translate_opcodes lower vendor mapping instructions program :
  vendor_mappings !! lower vendor = Some mapping →
  translate lower vendor instructions = Return program →
  Forall (λ udml_inst,
            opcode udml_inst ∉ [UDMLOpcode.RET; UDMLOpcode.JZ; UDMLOpcode.JNZ])
    (UDMLProgram.instructions program).
Proof.
  intros Hv Hprogram. rewrite (translate_Return _ _ _ _ Hv) in Hprogram.
  injection Hprogram as <-. cbn [UDMLProgram.instructions].
  induction instructions as [|inst instructions IH]; [constructor|].
  cbn [omap list_omap].
  destruct (mapping !! mnemonic_of inst) as [o|] eqn:Hm.
  - rewrite (_translate_instruction_mapped _ _ _ _ Hm). constructor; [|exact IH].
    cbn [opcode]. pose proof (vendor_mappings_opcodes _ _ _ _ Hv Hm) as Ho.
    intros Hbad. rewrite !elem_of_cons, elem_of_nil in Hbad.
    destruct Hbad as [->|[->|[->|[]]]]; by apply (bool_decide_pack _) in Ho.
  - rewrite (_translate_instruction_unmapped _ _ _ Hm). constructor; [|exact IH].
    by apply (bool_decide_unpack _).
Qed.

Lemma nesting_loop_no_RET l c :
  Forall (λ inst, opcode inst ≠ UDMLOpcode.RET) l →
  (0 ≤ c)%Z →
  fold_left nesting_step l (c, c)
  = ((c + count_opcode UDMLOpcode.CALL l)%Z, (c + count_opcode UDMLOpcode.CALL l)%Z).
Proof.
  intros Hl. revert c. induction Hl as [|inst l Hinst _ IH]; intros c Hc;
    cbn [fold_left count_opcode].
  - by rewrite Z.add_0_r.
  - unfold nesting_step at 2. rewrite (bool_decide_eq_false_2 _ Hinst).
    destruct (bool_decide (opcode inst = UDMLOpcode.CALL)).
    + rewrite Z.max_r by lia. rewrite IH by lia. f_equal; lia.
    + rewrite IH by lia. f_equal; lia.
Qed.

(** X15: on a program [translate] returns, the nesting depth is the number
    of [CALL]s and the cyclomatic complexity is one more: no table maps a
    mnemonic to [RET], [JZ] or [JNZ]. *)
Theorem translated_program_metrics lower vendor instructions program :
  translate lower vendor instructions = Return program →
  max_nesting_depth (analyze_complexity program)
  = count_opcode UDMLOpcode.CALL (UDMLProgram.instructions program)
  ∧ cyclomatic_complexity (analyze_complexity program)
    = (1 + count_opcode UDMLOpcode.CALL (UDMLProgram.instructions program))%Z.
Proof.
  intros Hprogram.
  destruct (vendor_mappings !! lower vendor) as [mapping|] eqn:Hv;
    [|unfold translate in Hprogram; by rewrite Hv in Hprogram].
  pose proof (translate_opcodes _ _ _ _ _ Hv Hprogram) as Hops.
  cbn [analyze_complexity max_nesting_depth cyclomatic_complexity].
  unfold _calculate_nesting_depth, _calculate_cyclomatic_complexity.
  set (l := UDMLProgram.instructions program) in *. split.
  - rewrite (nesting_loop_no_RET l 0); [done| |done].
    eapply Forall_impl; [exact Hops|]. cbn. intros inst Hinst Heq.
    apply Hinst. rewrite Heq. by apply (bool_decide_unpack _).
  - rewrite decision_points_count.
    assert (count_opcode UDMLOpcode.JZ l = 0%Z ∧ count_opcode UDMLOpcode.JNZ l = 0%Z)
      as [-> ->]; [|lia].
    clear -Hops. induction Hops as [|inst l Hinst _ [IH1 IH2]]; [done|].
    cbn [count_opcode]. rewrite IH1, IH2.
    rewrite !not_elem_of_cons in Hinst. destruct Hinst as (_ & ? & ? & _).
    by rewrite !bool_decide_eq_false_2.
Qed.

Lemma translated_program_metrics_witness :
  let program :=
    {| UDMLProgram.program_name := "rockwell_program";
       UDMLProgram.source_vendor := "rockwell";
       UDMLProgram.instructions :=
         [ {| opcode := UDMLOpcode.CALL; operands := ["Routine1"];
              source_vendor := "rockwell"; source_instruction := "JSR";
              address := 0; metadata := ∅; comment := None |};
           {| opcode := UDMLOpcode.NOP; operands := [];
              source_vendor := "rockwell"; source_instruction := "RET";
              address := 1;
              metadata := {[ "warning" := PyStr "unmapped_instruction" ]};
              comment := Some "Unknown: RET" |};
           {| opcode := UDMLOpcode.CALL; operands := ["Routine2"];
              source_vendor := "rockwell"; source_instruction := "JSR";
              address := 2; metadata := ∅; comment := None |} ];
       UDMLProgram.global_variables := ∅;
       UDMLProgram.functions := [];
       UDMLProgram.metadata :=
         {[ "translation_date" := PyStr "2024-01-01";
            "translator_version" := PyStr "1.0.0" ]} |} in
  max_nesting_depth (analyze_complexity program) = 2%Z
  ∧ cyclomatic_complexity (analyze_complexity program) = 3%Z.
Proof.
  intros program.
  apply (translated_program_metrics ascii_lower "rockwell"
           [PLCInstruction 0 "JSR" ["Routine1"] None;
            PLCInstruction 1 "RET" [] None;
            PLCInstruction 2 "JSR" ["Routine2"] None] program).
  reflexivity.
Defined.

(** ** Translating, then optimising *)

Lemma fusable_pairs_have_operands_intro l :
  Forall (λ inst, opcode inst ≠ UDMLOpcode.NOP → operands inst ≠ []) l →
  fusable_pairs_have_operands l = true.
Proof.
  induction 1 as [|inst rest Hinst Hrest IH]; [done|].
  cbn [fusable_pairs_have_operands]. rewrite IH, andb_true_r.
  destruct (bool_decide_reflect (opcode inst = UDMLOpcode.LOAD)) as [Hload|]; [|done].
  destruct Hrest as [|next rest' Hnext _]; [done|]. cbn [starts_with andb].
  destruct (bool_decide_reflect (opcode next = UDMLOpcode.STORE)) as [Hstore|]; [|done].
  rewrite !bool_decide_eq_false_2; [done| |].
  - apply Hnext. congruence.
  - apply Hinst. congruence.
Qed.

(** X16: when every input instruction has an operand list with at least one
    operand, [optimize] returns on the program [translate] returns, in
    whatever store the program is put: the placeholders for unmapped
    mnemonics have no operand, but they are [NOP]s and the pass drops
    them without reading an operand. *)
Theorem optimize_after_translate lower vendor instructions program (h : heap) l :
  Forall (λ inst, ∃ o os, attr_operands inst = Some (o :: os)) instructions →
  translate lower vendor instructions = Return program →
  h !! l = Some program →
  ∃ h', optimize l h = Return (l, h').
Proof.
  intros Hoperands Hprogram Hl.
  apply (optimize_returns h l program Hl).
  destruct (vendor_mappings !! lower vendor) as [mapping|] eqn:Hv;
    [|unfold translate in Hprogram; by rewrite Hv in Hprogram].
  rewrite (translate_Return _ _ _ _ Hv) in Hprogram. injection Hprogram as <-.
  cbn [UDMLProgram.instructions]. apply fusable_pairs_have_operands_intro.
  clear Hl. induction Hoperands as [|inst instructions (o & os & Hinst) _ IH];
    [constructor|].
  cbn [omap list_omap].
  destruct (mapping !! mnemonic_of inst) as [oc|] eqn:Hm.
  - rewrite (_translate_instruction_mapped _ _ _ _ Hm). constructor; [|exact IH].
    cbn [opcode operands]. by rewrite Hinst.
  - rewrite (_translate_instruction_unmapped _ _ _ Hm). by constructor.
Qed.

Lemma optimize_after_translate_witness :
  let program :=
    {| UDMLProgram.program_name := "siemens_program";
       UDMLProgram.source_vendor := "siemens";
       UDMLProgram.instructions :=
         [ {| opcode := UDMLOpcode.LOAD; operands := ["MW0"];
              source_vendor := "siemens"; source_instruction := "L";
              address := 0; metadata := ∅; comment := None |};
           {| opcode := UDMLOpcode.STORE; operands := ["MW2"];
              source_vendor := "siemens"; source_instruction := "T";
              address := 2; metadata := ∅; comment := None |} ];
       UDMLProgram.global_variables := ∅;
       UDMLProgram.functions := [];
       UDMLProgram.metadata :=
         {[ "translation_date" := PyStr "2024-01-01";
            "translator_version" := PyStr "1.0.0" ]} |} in
  ∃ h', optimize 7 {[ 7 := program ]} = Return (7, h').
Proof.
  intros program.
  apply (optimize_after_translate ascii_lower "siemens"
           [PLCInstruction 0 "L" ["MW0"] None; PLCInstruction 2 "T" ["MW2"] None]
           program {[ 7 := program ]} 7).
  - repeat constructor; by eexists _, _.
  - reflexivity.
  - reflexivity.
Defined.

(** * The export dictionaries *)

Lemma map_to_list_eq_inj (d1 d2 : gmap string PyValue) :
  map_to_list d1 = map_to_list d2 → d1 = d2.
Proof. intros Heq. apply map_to_list_inj. by rewrite Heq. Qed.

Lemma py_dict_inj d1 d2 : py_dict d1 = py_dict d2 → d1 = d2.
Proof. intros [= Heq]. by apply map_to_list_eq_inj. Qed.

Lemma PyStr_fmap_inj (l1 l2 : list string) : PyStr <$> l1 = PyStr <$> l2 → l1 = l2.
Proof.
  revert l2. induction l1 as [|s1 l1 IH]; intros [|s2 l2]; try done.
  intros [= -> Hl]. f_equal. by apply IH.
Qed.

Lemma instruction_to_dict_lookups self :
  instruction_to_dict self !! "opcode" = Some (PyStr (UDMLOpcode.value (opcode self)))
  ∧ instruction_to_dict self !! "operands" = Some (PyList (PyStr <$> operands self))
  ∧ instruction_to_dict self !! "source_vendor" = Some (PyStr (source_vendor self))
  ∧ instruction_to_dict self !! "source_instruction"
    = Some (PyStr (source_instruction self))
  ∧ instruction_to_dict self !! "address" = Some (PyInt (address self))
  ∧ instruction_to_dict self !! "metadata" = Some (py_dict (metadata self))
  ∧ instruction_to_dict self !! "comment"
    = Some (match comment self with Some c => PyStr c | None => PyNone end).
Proof. repeat split. Qed.

Lemma instruction_to_dict_inj_aux self1 self2 :
  instruction_to_dict self1 = instruction_to_dict self2 → self1 = self2.
Proof.
  intros Heq.
  destruct (instruction_to_dict_lookups self1) as (H1 & H2 & H3 & H4 & H5 & H6 & H7).
  destruct (instruction_to_dict_lookups self2) as (K1 & K2 & K3 & K4 & K5 & K6 & K7).
  rewrite Heq in H1, H2, H3, H4, H5, H6, H7.
  rewrite K1 in H1. rewrite K2 in H2. rewrite K3 in H3. rewrite K4 in H4.
  rewrite K5 in H5. rewrite K6 in H6. rewrite K7 in H7.
  destruct self1 as [o1 os1 sv1 si1 a1 m1 c1], self2 as [o2 os2 sv2 si2 a2 m2 c2].
  cbn [opcode operands source_vendor source_instruction address metadata comment] in *.
  injection H1 as ->%UDMLOpcode_value_inj. injection H2 as ->%PyStr_fmap_inj.
  injection H3 as ->. injection H4 as ->. injection H5 as ->.
  injection H6 as ->%map_to_list_eq_inj.
  f_equal. destruct c1, c2; congruence.
Qed.

(** X17: [UDMLInstruction.to_dict] loses nothing: two instructions with the
    same dictionary are the same instruction. *)
Theorem instruction_to_dict_inj self1 self2 :
  instruction_to_dict self1 = instruction_to_dict self2 → self1 = self2.
Proof. apply instruction_to_dict_inj_aux. Qed.

Lemma instruction_to_dict_inj_witness :
  example_inst UDMLOpcode.SET ["Q0.0"] 4
  = {| opcode := UDMLOpcode.SET; operands := ["Q0.0"]; source_vendor := "siemens";
       source_instruction := "SET"; address := 4; metadata := ∅; comment := None |}.
Proof. apply instruction_to_dict_inj. reflexivity. Defined.

Lemma program_to_dict_lookups self :
  program_to_dict self !! "program_name" = Some (PyStr (UDMLProgram.program_name self))
  ∧ program_to_dict self !! "source_vendor"
    = Some (PyStr (UDMLProgram.source_vendor self))
  ∧ program_to_dict self !! "instruction_count"
    = Some (PyInt (Z.of_nat (length (UDMLProgram.instructions self))))
  ∧ program_to_dict self !! "instructions"
    = Some (PyList ((λ inst, py_dict (instruction_to_dict inst))
                      <$> UDMLProgram.instructions self))
  ∧ program_to_dict self !! "global_variables"
    = Some (py_dict (UDMLProgram.global_variables self))
  ∧ program_to_dict self !! "functions"
    = Some (PyList (py_dict <$> UDMLProgram.functions self))
  ∧ program_to_dict self !! "metadata" = Some (py_dict (UDMLProgram.metadata self)).
Proof. repeat split. Qed.

Lemma fmap_inj_list {A B} (f : A → B) (l1 l2 : list A) :
  (∀ x y, f x = f y → x = y) → f <$> l1 = f <$> l2 → l1 = l2.
Proof.
  intros Hf. revert l2. induction l1 as [|x1 l1 IH]; intros [|x2 l2]; try done.
  intros [= Hx Hl]. f_equal; [by apply Hf | by apply IH].
Qed.

(** X18: [UDMLProgram.to_dict] loses nothing either, and its
    [instruction_count] is the number of entries of its [instructions] and
    the [total_instructions] of [analyze_complexity]. *)
Theorem program_to_dict_inj self1 self2 :
  (program_to_dict self1 = program_to_dict self2 → self1 = self2)
  ∧ ∃ ds,
      program_to_dict self1 !! "instructions" = Some (PyList ds)
      ∧ program_to_dict self1 !! "instruction_count"
        = Some (PyInt (Z.of_nat (length ds)))
      ∧ Z.of_nat (length ds) = total_instructions (analyze_complexity self1).
Proof.
  destruct (program_to_dict_lookups self1) as (H1 & H2 & H3 & H4 & H5 & H6 & H7).
  split.
  - intros Heq.
    destruct (program_to_dict_lookups self2) as (K1 & K2 & K3 & K4 & K5 & K6 & K7).
    rewrite Heq in H1, H2, H4, H5, H6, H7.
    rewrite K1 in H1. rewrite K2 in H2. rewrite K4 in H4.
    rewrite K5 in H5. rewrite K6 in H6. rewrite K7 in H7.
    destruct self1 as [n1 v1 l1 g1 f1 m1], self2 as [n2 v2 l2 g2 f2 m2].
    cbn [UDMLProgram.program_name UDMLProgram.source_vendor UDMLProgram.instructions
         UDMLProgram.global_variables UDMLProgram.functions UDMLProgram.metadata] in *.
    injection H1 as ->. injection H2 as ->.
    injection H4 as H4. apply fmap_inj_list in H4 as ->;
      [|intros x y Hxy; by apply instruction_to_dict_inj_aux, py_dict_inj].
    injection H5 as ->%map_to_list_eq_inj.
    injection H6 as H6. apply fmap_inj_list in H6 as ->; [|apply py_dict_inj].
    injection H7 as ->%map_to_list_eq_inj. reflexivity.
  - eexists. split; [exact H4|]. rewrite length_fmap. split; [exact H3|done].
Qed.

Lemma program_to_dict_inj_witness :
  example_program [example_inst UDMLOpcode.SET ["Q0.0"] 4]
  = {| UDMLProgram.program_name := "siemens_program";
       UDMLProgram.source_vendor := "siemens";
       UDMLProgram.instructions :=
         [ {| opcode := UDMLOpcode.SET; operands := ["Q0.0"];
              source_vendor := "siemens"; source_instruction := "SET";
              address := 4; metadata := ∅; comment := None |} ];
       UDMLProgram.global_variables := ∅;
       UDMLProgram.functions := [];
       UDMLProgram.metadata := {[ "translator_version" := PyStr "1.0.0" ]} |}.
Proof.
  apply (proj1 (program_to_dict_inj
                  (example_program [example_inst UDMLOpcode.SET ["Q0.0"] 4])
                  {| UDMLProgram.program_name := "siemens_program";
                     UDMLProgram.source_vendor := "siemens";
                     UDMLProgram.instructions :=
                       [ {| opcode := UDMLOpcode.SET; operands := ["Q0.0"];
                            source_vendor := "siemens"; source_instruction := "SET";
                            address := 4; metadata := ∅; comment := None |} ];
                     UDMLProgram.global_variables := ∅;
                     UDMLProgram.functions := [];
                     UDMLProgram.metadata :=
                       {[ "translator_version" := PyStr "1.0.0" ]} |})).
  reflexivity.
Defined.
